(** * video-downloader: the yt-dlp wrapper of package [downloader]

    A shallow embedding of [downloader/downloader.go] and the properties of
    its output pipeline: the tee of the child's stdout and stderr into
    in-memory buffers, the line-oriented progress decoder, the argument
    builder and the assembly of the run result.

    Go values are modelled as follows.
    - [string] is a Go [string]; [list ascii] is a Go [[]byte].
    - [float64] is [spec_float] with the binary64 parameters.
    - [map[string]string] is [gmap string string].
    - an [io.Writer] supplied by the caller and the progress callback are
      functions on an abstract caller world [W], so that a sink and the
      callback may share state.
    - [error] is the inductive type [error]; [nil] is [None]. *)

From Stdlib Require Import ZArith NArith QArith Ascii String.
From Stdlib Require Import Floats.SpecFloat.
From stdpp Require Import gmap strings list sorting.

Local Open Scope string_scope.
Local Open Scope list_scope.

(** ** Bytes and strings *)

Definition bytes := list ascii.

Definition byteN (c : ascii) : N := N_of_ascii c.

Definition LF : ascii := "010"%char.

Definition str (b : bytes) : string := string_of_list_ascii b.
Definition bytesOf (s : string) : bytes := list_ascii_of_string s.

(** ** Package [unicode/utf8] *)

Module utf8.

Definition RuneError : N := 65533%N.
Definition RuneSelf : N := 128%N.

(** The tables [first] and [acceptRanges]: for a leading byte, the length of
    its sequence and the range accepted for the second byte. [None] stands for
    the entry [xx] (a byte that starts no sequence); ASCII bytes are handled
    before the table is read. *)
Definition first (s0 : N) : option (nat * N * N) :=
  if (s0 <? 194)%N then None
  else if (s0 <=? 223)%N then Some (2%nat, 128%N, 191%N)
  else if (s0 =? 224)%N then Some (3%nat, 160%N, 191%N)
  else if (s0 <=? 236)%N then Some (3%nat, 128%N, 191%N)
  else if (s0 =? 237)%N then Some (3%nat, 128%N, 159%N)
  else if (s0 <=? 239)%N then Some (3%nat, 128%N, 191%N)
  else if (s0 =? 240)%N then Some (4%nat, 144%N, 191%N)
  else if (s0 <=? 243)%N then Some (4%nat, 128%N, 191%N)
  else if (s0 =? 244)%N then Some (4%nat, 128%N, 143%N)
  else None.

Definition cont (b : N) : bool := (128 <=? b)%N && (b <=? 191)%N.

Definition DecodeRuneInString (s : bytes) : N * nat :=
  match s with
  | [] => (RuneError, 0)
  | c0 :: t =>
    let s0 := byteN c0 in
    if (s0 <? RuneSelf)%N then (s0, 1)
    else
      match first s0 with
      | None => (RuneError, 1)
      | Some (sz, lo, hi) =>
        if (length s <? sz)%nat then (RuneError, 1)
        else
          match t with
          | [] => (RuneError, 1)
          | c1 :: t1 =>
            let s1 := byteN c1 in
            if (s1 <? lo)%N || (hi <? s1)%N then (RuneError, 1)
            else if (sz <=? 2)%nat then
              (N.lor (N.shiftl (N.land s0 31) 6) (N.land s1 63), 2)
            else
              match t1 with
              | [] => (RuneError, 1)
              | c2 :: t2 =>
                let s2 := byteN c2 in
                if negb (cont s2) then (RuneError, 1)
                else if (sz <=? 3)%nat then
                  (N.lor (N.lor (N.shiftl (N.land s0 15) 12)
                                (N.shiftl (N.land s1 63) 6))
                         (N.land s2 63), 3)
                else
                  match t2 with
                  | [] => (RuneError, 1)
                  | c3 :: _ =>
                    let s3 := byteN c3 in
                    if negb (cont s3) then (RuneError, 1)
                    else
                      (N.lor (N.lor (N.lor (N.shiftl (N.land s0 7) 18)
                                           (N.shiftl (N.land s1 63) 12))
                                    (N.shiftl (N.land s2 63) 6))
                             (N.land s3 63), 4)
                  end
              end
          end
      end
  end.

Definition RuneStart (b : N) : bool := negb (N.land b 192 =? 128)%N.

(** The backward scan of [DecodeLastRuneInString]:
    [for start--; start >= lim; start-- { if RuneStart(s[start]) { break } }],
    entered with [start] already decremented. *)
Fixpoint scanStart (fuel : nat) (s : bytes) (start lim : Z) : Z :=
  match fuel with
  | O => start
  | S k =>
    if (start <? lim)%Z then start
    else if RuneStart (byteN (nth (Z.to_nat start) s "000"%char)) then start
    else scanStart k s (start - 1)%Z lim
  end.

Definition DecodeLastRuneInString (s : bytes) : N * nat :=
  let stop := Z.of_nat (length s) in
  if (stop =? 0)%Z then (RuneError, 0)
  else
    let r := byteN (nth (Z.to_nat (stop - 1)) s "000"%char) in
    if (r <? RuneSelf)%N then (r, 1)
    else
      let lim := Z.max (stop - 4) 0 in
      let start := Z.max (scanStart 5 s (stop - 2) lim) 0 in
      let '(r, size) := DecodeRuneInString (drop (Z.to_nat start) s) in
      if (start + Z.of_nat size =? stop)%Z then (r, size) else (RuneError, 1).

End utf8.

(** ** Package [unicode] *)

Module unicode.

(** [IsSpace]: the Latin-1 switch, then the [White_Space] range table. *)
Definition IsSpace (r : N) : bool :=
  if (r <=? 255)%N then
    ((9 <=? r)%N && (r <=? 13)%N) || (r =? 32)%N || (r =? 133)%N || (r =? 160)%N
  else
    (r =? 5760)%N || ((8192 <=? r)%N && (r <=? 8202)%N) || (r =? 8232)%N
    || (r =? 8233)%N || (r =? 8239)%N || (r =? 8287)%N || (r =? 12288)%N.

End unicode.

(** ** Package [strings] *)

Module strings.

(** [indexFunc(s, f, truth)]: [for i, r := range s]; [skip] counts the
    remaining bytes of the rune decoded last. *)
Fixpoint indexFunc_from (s : bytes) (f : N -> bool) (truth : bool)
    (i : Z) (skip : nat) : Z :=
  match s with
  | [] => (-1)%Z
  | _ :: t =>
    match skip with
    | S k => indexFunc_from t f truth (i + 1)%Z k
    | O =>
      let '(r, size) := utf8.DecodeRuneInString s in
      if Bool.eqb (f r) truth then i
      else indexFunc_from t f truth (i + 1)%Z (size - 1)
    end
  end.

Definition indexFunc (s : bytes) (f : N -> bool) (truth : bool) : Z :=
  indexFunc_from s f truth 0%Z 0.

(** [lastIndexFunc(s, f, truth)]: [for i := len(s); i > 0; ...]. *)
Fixpoint lastIndexFunc_from (fuel : nat) (s : bytes) (f : N -> bool)
    (truth : bool) (i : Z) : Z :=
  match fuel with
  | O => (-1)%Z
  | S k =>
    if (i <=? 0)%Z then (-1)%Z
    else
      let '(r, size) := utf8.DecodeLastRuneInString (take (Z.to_nat i) s) in
      let i := (i - Z.of_nat size)%Z in
      if Bool.eqb (f r) truth then i else lastIndexFunc_from k s f truth i
  end.

Definition lastIndexFunc (s : bytes) (f : N -> bool) (truth : bool) : Z :=
  lastIndexFunc_from (length s) s f truth (Z.of_nat (length s)).

Definition TrimLeftFunc (s : bytes) (f : N -> bool) : bytes :=
  let i := indexFunc s f false in
  if (i =? -1)%Z then [] else drop (Z.to_nat i) s.

Definition TrimRightFunc (s : bytes) (f : N -> bool) : bytes :=
  let i := lastIndexFunc s f false in
  let i :=
    if (0 <=? i)%Z && (utf8.RuneSelf <=? byteN (nth (Z.to_nat i) s "000"%char))%N
    then
      let '(_, wid) := utf8.DecodeRuneInString (drop (Z.to_nat i) s) in
      (i + Z.of_nat wid)%Z
    else (i + 1)%Z in
  take (Z.to_nat i) s.

Definition TrimFunc (s : bytes) (f : N -> bool) : bytes :=
  TrimRightFunc (TrimLeftFunc s f) f.

(** The table [asciiSpace]. *)
Definition asciiSpace (c : N) : bool :=
  ((9 <=? c)%N && (c <=? 13)%N) || (c =? 32)%N.

(** One of the two ASCII loops of [TrimSpace]: the bytes left once the
    leading ASCII spaces are gone, and whether the loop stopped on a byte
    [>= utf8.RuneSelf]. The loop from the end is this loop on the reversed
    bytes. *)
Fixpoint skipASCIISpace (s : bytes) : bytes * bool :=
  match s with
  | [] => ([], false)
  | c :: t =>
    if (utf8.RuneSelf <=? byteN c)%N then (s, true)
    else if asciiSpace (byteN c) then skipASCIISpace t
    else (s, false)
  end.

(** [TrimSpace] on the bytes of its argument: the two ASCII loops, and the
    rune-wise functions once a byte [>= utf8.RuneSelf] is met.
    [bytes.TrimSpace] returns the same bytes. *)
Definition trimSpace (s : bytes) : bytes :=
  let '(s1, nonASCII) := skipASCIISpace s in
  if nonASCII then TrimFunc s1 unicode.IsSpace
  else
    let '(r2, nonASCII) := skipASCIISpace (rev s1) in
    if nonASCII then TrimRightFunc (rev r2) unicode.IsSpace
    else rev r2.

Definition TrimSpace (s : string) : string := str (trimSpace (bytesOf s)).

Definition HasSuffix (s suffix : bytes) : bool :=
  (length suffix <=? length s)%nat
  && bool_decide (drop (length s - length suffix) s = suffix).

Definition TrimSuffix (s suffix : string) : string :=
  if HasSuffix (bytesOf s) (bytesOf suffix)
  then str (take (String.length s - String.length suffix) (bytesOf s))
  else s.

(** [Split(s, sep)] for a separator of one byte, the only use in this
    package: the pieces between the occurrences of [sep], one more than
    there are occurrences. *)
Fixpoint Split (s : string) (sep : ascii) : list string :=
  match s with
  | EmptyString => [EmptyString]
  | String c t =>
    if Ascii.eqb c sep then EmptyString :: Split t sep
    else
      match Split t sep with
      | p :: ps => String c p :: ps
      | [] => [String c EmptyString]
      end
  end.

Definition foldByte (c : ascii) : N :=
  let n := byteN c in
  if (65 <=? n)%N && (n <=? 90)%N then (n + 32)%N else n.

(** [EqualFold] by ASCII case folding. Go folds by Unicode simple folding;
    the two agree when one argument is made of ASCII bytes other than the
    letters k and s (whose orbits hold U+212A and U+017F), as the only
    pattern of this package, N/A, is. *)
Fixpoint EqualFold (s t : string) : bool :=
  match s, t with
  | EmptyString, EmptyString => true
  | String a s', String b t' => (foldByte a =? foldByte b)%N && EqualFold s' t'
  | _, _ => false
  end.

End strings.

(** ** Errors and floats *)

(** Go [error] values. [errorString] is [errors.New]; it also stands for any
    error made outside this package (a sink, the child process, the
    context). [wrapError before err after] is [fmt.Errorf] with one [%w]
    verb: the text before it, the wrapped error, the text after it. *)
Inductive error : Type :=
  | errorString (msg : string)
  | NumError (Func Num : string) (Err : error)
  | wrapError (before : string) (err : error) (after : string).

Definition float64 := spec_float.

Definition f64_prec : Z := 53.
Definition f64_emax : Z := 1024.

(** ** Package [strconv] *)

Module strconv.

Definition ErrRange : error := errorString "value out of range".
Definition ErrSyntax : error := errorString "invalid syntax".

Definition syntaxError (fn s : string) : error := NumError fn s ErrSyntax.
Definition rangeError (fn s : string) : error := NumError fn s ErrRange.

Definition fnParseFloat : string := "ParseFloat".

Definition lower (c : N) : N := N.lor c 32.

Definition isDigit (c : N) : bool := (48 <=? c)%N && (c <=? 57)%N.

Fixpoint commonPrefixLenIgnoreCase (s prefix : bytes) : nat :=
  match s, prefix with
  | c :: s', p :: prefix' =>
    let c := byteN c in
    let c := if (65 <=? c)%N && (c <=? 90)%N then (c + 32)%N else c in
    if (c =? byteN p)%N then S (commonPrefixLenIgnoreCase s' prefix') else O
  | _, _ => O
  end.

(** [special]: the infinities and NaN, with the number of bytes read. *)
Definition special (s : bytes) : option (float64 * nat) :=
  let inf (neg : bool) (nsign : nat) (s : bytes) :=
    let n := commonPrefixLenIgnoreCase s (bytesOf "infinity") in
    let n := if (3 <? n)%nat && (n <? 8)%nat then 3 else n in
    if (n =? 3)%nat || (n =? 8)%nat
    then Some (S754_infinity neg, nsign + n) else None in
  match s with
  | [] => None
  | c :: t =>
    let b := byteN c in
    if (b =? 43)%N then inf false 1 t
    else if (b =? 45)%N then inf true 1 t
    else if (b =? 105)%N || (b =? 73)%N then inf false 0 s
    else if (b =? 110)%N || (b =? 78)%N then
      if (commonPrefixLenIgnoreCase s (bytesOf "nan") =? 3)%nat
      then Some (S754_nan, 3) else None
    else None
  end.

(** [underscoreOK]: underscores only between digits or between a base
    prefix and a digit. [saw] is the class of the last byte: 0 for a digit,
    1 for an underscore, 2 for another byte, 3 at the start. *)
Fixpoint underscoreOK_loop (hex : bool) (s : bytes) (saw : nat) : bool :=
  match s with
  | [] => negb (saw =? 1)%nat
  | c :: t =>
    let b := byteN c in
    if isDigit b || (hex && (97 <=? lower b)%N && (lower b <=? 102)%N)
    then underscoreOK_loop hex t 0
    else if (b =? 95)%N then
      if (saw =? 0)%nat then underscoreOK_loop hex t 1 else false
    else if (saw =? 1)%nat then false
    else underscoreOK_loop hex t 2
  end.

Definition underscoreOK (s : bytes) : bool :=
  let s :=
    match s with
    | c :: t => if (byteN c =? 45)%N || (byteN c =? 43)%N then t else s
    | [] => s
    end in
  match s with
  | c0 :: c1 :: t =>
    let l := lower (byteN c1) in
    if (byteN c0 =? 48)%N && ((l =? 98)%N || (l =? 111)%N || (l =? 120)%N)
    then underscoreOK_loop (l =? 120)%N t 0
    else underscoreOK_loop false s 3
  | _ => underscoreOK_loop false s 3
  end.

(** The state of the digit loop of [readFloat]. The mantissa keeps every
    digit: where Go truncates it to 19 digits (16 in base 16) and recovers
    the exact value through a sticky bit or its [decimal] fallback, the
    model rounds the exact value once. *)
Record digitState := {
  mantissa : N;
  nd : Z;
  dp : Z;
  sawdot : bool;
  sawdigits : bool;
  underscores : bool
}.

Fixpoint readDigits (base16 : bool) (s : bytes) (st : digitState)
    : digitState * bytes :=
  match s with
  | [] => (st, [])
  | c :: t =>
    let b := byteN c in
    if (b =? 95)%N then
      readDigits base16 t
        {| mantissa := mantissa st; nd := nd st; dp := dp st;
           sawdot := sawdot st; sawdigits := sawdigits st;
           underscores := true |}
    else if (b =? 46)%N then
      if sawdot st then (st, s)
      else
        readDigits base16 t
          {| mantissa := mantissa st; nd := nd st; dp := nd st;
             sawdot := true; sawdigits := sawdigits st;
             underscores := underscores st |}
    else if isDigit b then
      if (b =? 48)%N && (nd st =? 0)%Z then
        readDigits base16 t
          {| mantissa := mantissa st; nd := nd st; dp := (dp st - 1)%Z;
             sawdot := sawdot st; sawdigits := true;
             underscores := underscores st |}
      else
        readDigits base16 t
          {| mantissa :=
               (mantissa st * (if base16 then 16 else 10) + (b - 48))%N;
             nd := (nd st + 1)%Z; dp := dp st;
             sawdot := sawdot st; sawdigits := true;
             underscores := underscores st |}
    else if base16 && (97 <=? lower b)%N && (lower b <=? 102)%N then
      readDigits base16 t
        {| mantissa := (mantissa st * 16 + (lower b - 97 + 10))%N;
           nd := (nd st + 1)%Z; dp := dp st;
           sawdot := sawdot st; sawdigits := true;
           underscores := underscores st |}
    else (st, s)
  end.

(** The digits of the exponent: [if e < 10000 { e = e*10 + int(s[i]) - '0' }]. *)
Fixpoint readExp (s : bytes) (e : Z) (us : bool) : Z * bool * bytes :=
  match s with
  | [] => (e, us, [])
  | c :: t =>
    let b := byteN c in
    if isDigit b then
      readExp t (if (e <? 10000)%Z then (e * 10 + Z.of_N b - 48)%Z else e) us
    else if (b =? 95)%N then readExp t e true
    else (e, us, s)
  end.

Record floatLit := {
  lit_mantissa : N;
  lit_exp : Z;
  lit_neg : bool;
  lit_hex : bool;
  lit_n : nat
}.

(** [readFloat]: [None] is [ok = false]. *)
Definition readFloat (s : bytes) : option floatLit :=
  match s with
  | [] => None
  | c :: t =>
    let '(neg, s1) :=
      if (byteN c =? 43)%N then (false, t)
      else if (byteN c =? 45)%N then (true, t)
      else (false, s) in
    let '(hex, s2) :=
      match s1 with
      | c0 :: c1 :: (_ :: _) as r =>
        if (byteN c0 =? 48)%N && (lower (byteN c1) =? 120)%N
        then (true, r) else (false, s1)
      | _ => (false, s1)
      end in
    let '(st, s3) :=
      readDigits hex s2
        {| mantissa := 0; nd := 0; dp := 0; sawdot := false;
           sawdigits := false; underscores := false |} in
    if negb (sawdigits st) then None
    else
      let dp := if sawdot st then dp st else nd st in
      let ndMant := nd st in
      let dp := if hex then (dp * 4)%Z else dp in
      let ndMant := if hex then (ndMant * 4)%Z else ndMant in
      let expChar := if hex then 112%N else 101%N in
      let finish (dp : Z) (us : bool) (rest : bytes) :=
        let n := (length s - length rest)%nat in
        if us && negb (underscoreOK (take n s)) then None
        else
          Some {| lit_mantissa := mantissa st;
                  lit_exp := if (mantissa st =? 0)%N then 0%Z
                             else (dp - ndMant)%Z;
                  lit_neg := neg; lit_hex := hex; lit_n := n |} in
      match s3 with
      | ce :: s4 =>
        if (lower (byteN ce) =? expChar)%N then
          match s4 with
          | [] => None
          | cs :: s5 =>
            let '(esign, s6) :=
              if (byteN cs =? 43)%N then (1%Z, s5)
              else if (byteN cs =? 45)%N then ((-1)%Z, s5)
              else (1%Z, s4) in
            match s6 with
            | [] => None
            | cd :: _ =>
              if negb (isDigit (byteN cd)) then None
              else
                let '(e, us, rest) := readExp s6 0%Z (underscores st) in
                finish (dp + e * esign)%Z us rest
            end
          end
        else if hex then None
        else finish dp (underscores st) s3
      | [] => if hex then None else finish dp (underscores st) s3
      end
  end.

(** The float nearest to [(-1)^neg * m * base^e], ties to even: the value
    Go documents for a well-formed literal ("the nearest floating-point
    number rounded using IEEE754 unbiased rounding"). Beyond the largest
    float the result is an infinity. *)
Definition roundScaled (prec emax : Z) (neg : bool) (m : N) (base : Z) (e : Z)
    : spec_float :=
  match m with
  | N0 => S754_zero neg
  | Npos p =>
    if (0 <=? e)%Z then
      binary_round prec emax neg (p * Z.to_pos (base ^ e))%positive 0
    else
      let '(q, e', l) :=
        SFdiv_core_binary prec emax (Zpos p) 0 (base ^ (- e)) 0 in
      binary_round_aux prec emax neg q e' l
  end.

Definition isInf (f : float64) : bool :=
  match f with S754_infinity _ => true | _ => false end.

Definition atof (prec emax : Z) (s : bytes) : float64 * nat * option error :=
  match special s with
  | Some (val, n) => (val, n, None)
  | None =>
    match readFloat s with
    | None => (S754_zero false, O, Some (syntaxError fnParseFloat (str s)))
    | Some l =>
      let f :=
        roundScaled prec emax (lit_neg l) (lit_mantissa l)
          (if lit_hex l then 2 else 10) (lit_exp l) in
      (f, lit_n l,
       if isInf f then Some (rangeError fnParseFloat (str s)) else None)
    end
  end.

Definition atof64 (s : bytes) : float64 * nat * option error :=
  atof f64_prec f64_emax s.

(** [atof32] rounds to binary32; its result converts to [float64] exactly. *)
Definition atof32 (s : bytes) : float64 * nat * option error :=
  let '(f, n, err) := atof 24 128 s in
  let f :=
    match f with
    | S754_finite sg m e =>
      binary_normalize f64_prec f64_emax (cond_Zopp sg (Zpos m)) e false
    | _ => f
    end in
  (f, n, err).

Definition parseFloatPrefix (s : bytes) (bitSize : Z)
    : float64 * nat * option error :=
  if (bitSize =? 32)%Z then atof32 s else atof64 s.

Definition isSyntax (e : error) : bool :=
  match e with
  | NumError _ _ (errorString msg) => String.eqb msg "invalid syntax"
  | _ => false
  end.

Definition ParseFloat (s : string) (bitSize : Z) : float64 * option error :=
  let '(f, n, err) := parseFloatPrefix (bytesOf s) bitSize in
  if negb (n =? String.length s)%nat
     && match err with None => true | Some e => negb (isSyntax e) end
  then (S754_zero false, Some (syntaxError fnParseFloat s))
  else (f, err).

End strconv.

(** ** Packages [sort], [bytes] and [io] *)

Module sort.

(** [sort.Strings]: increasing byte-wise order, the order of Go's [<] on
    strings. *)
Definition Strings (x : list string) : list string := merge_sort String.le x.

End sort.

Module Buffer.

(** [Write] of a [bytes.Buffer]: appends; the error is always [nil]. *)
Definition Write (buf p : bytes) : bytes * (Z * option error) :=
  (buf ++ p, (Z.of_nat (length p), None)).

End Buffer.

Module io.

Definition ErrShortWrite : error := errorString "short write".

End io.

(** ** Package [downloader] *)

Definition errEmptyBinaryPath : error := errorString "binary path is empty".
Definition errURLRequired : error := errorString "url is required".
Definition errBinaryNotConfigured : error :=
  errorString "yt-dlp binary is not configured".

Record Downloader := { binPath : string }.

Record Result := { Result_Stdout : bytes; Result_Stderr : bytes }.

Record ProgressUpdate := {
  Percent : float64;
  ETA : string;
  Speed : string;
  Raw : string
}.

Definition progressTemplate : string :=
  "%(progress._percent_str)s|%(progress._eta_str)s|%(progress._speed_str)s".
Definition progressPartsCount : nat := 3.
Definition floatBitSize : Z := 64.

(** [ProgressUpdate{Raw: line}]: the other fields hold their zero value. *)
Definition rawOnly (line : string) : ProgressUpdate :=
  {| Percent := S754_zero false; ETA := ""; Speed := ""; Raw := line |}.

(** The first field as [parseProgress] normalises it:
    [strings.TrimSpace(strings.TrimSuffix(parts[0], "%"))]. *)
Definition rawPercentOf (part0 : string) : string :=
  strings.TrimSpace (strings.TrimSuffix part0 "%").

Definition parseProgress (line : string) : ProgressUpdate * bool :=
  let parts := strings.Split line "|"%char in
  if negb (length parts =? progressPartsCount)%nat then (rawOnly line, false)
  else
    let rawPercent := rawPercentOf (nth 0 parts "") in
    let eta := strings.TrimSpace (nth 1 parts "") in
    let speed := strings.TrimSpace (nth 2 parts "") in
    if String.eqb rawPercent "" || strings.EqualFold rawPercent "N/A"
    then (rawOnly line, false)
    else
      match strconv.ParseFloat rawPercent floatBitSize with
      | (_, Some _) => (rawOnly line, false)
      | (percent, None) =>
        ({| Percent := percent; ETA := eta; Speed := speed; Raw := line |},
         true)
      end.

Section Streams.

(** The caller's world: whatever state lies behind the writers and the
    callback the caller hands in. *)
Context {W : Type}.

(** A caller-supplied [io.Writer]: its [Write]. *)
Definition Sink := W -> bytes -> W * (Z * option error).

(** A caller-supplied [func(ProgressUpdate)]. *)
Definition Callback := ProgressUpdate -> W -> W.

Record Options := {
  OutputTemplate : string;
  Format : string;
  Proxy : string;
  CookiesFile : string;
  Headers : gmap string string;
  ExtraArgs : list string;
  WorkDir : string;
  Stdout : option Sink;
  Stderr : option Sink;
  Progress : option Callback
}.

(** The writers this package builds. [bufferWriter] is [&buf];
    [multiWriter extra] is [io.MultiWriter(extra, &buf)];
    [writerFunc callback extra] is the closure of [progressWriter]. *)
Inductive writer :=
  | bufferWriter
  | multiWriter (extra : Sink)
  | writerFunc (callback : Callback) (extra : option Sink).

(** The variables a writer closes over: [buf] and, for the closure of
    [progressWriter], [lineBuf]. *)
Record streamState := { buf : bytes; lineBuf : bytes }.

Definition newStream : streamState := {| buf := []; lineBuf := [] |}.

(** What one [Write] leaves: the state, the caller's world, the two results
    of [Write], and the callback invocations it made, in order. *)
Record written := {
  w_state : streamState;
  w_world : W;
  w_n : Z;
  w_err : option error;
  w_calls : list ProgressUpdate
}.

Definition teeWriter (extra : option Sink) : writer * streamState :=
  match extra with
  | None => (bufferWriter, newStream)
  | Some extra => (multiWriter extra, newStream)
  end.

(** The loop [for _, b := range chunk] of the closure. *)
Fixpoint feedLine (callback : Callback) (chunk : bytes) (lineBuf : bytes)
    (w : W) (calls : list ProgressUpdate)
    : bytes * W * list ProgressUpdate :=
  match chunk with
  | [] => (lineBuf, w, calls)
  | b :: rest =>
    let lineBuf := lineBuf ++ [b] in
    if Ascii.eqb b LF then
      let line := strings.TrimSpace (str lineBuf) in
      let lineBuf := [] in
      match parseProgress line with
      | (upd, true) =>
        feedLine callback rest lineBuf (callback upd w) (calls ++ [upd])
      | (_, false) => feedLine callback rest lineBuf w calls
      end
    else feedLine callback rest lineBuf w calls
  end.

(** The closure [writer] of [progressWriter]. *)
Definition progressWrite (callback : Callback) (extra : option Sink)
    (st : streamState) (w : W) (chunk : bytes) : written :=
  let '(w, perr) :=
    match extra with
    | Some extra => let '(w, (_, err)) := extra w chunk in (w, err)
    | None => (w, None)
    end in
  match perr with
  | Some err =>
    {| w_state := st; w_world := w; w_n := 0;
       w_err := Some (wrapError "write passthrough: " err ""); w_calls := [] |}
  | None =>
    let '(buf', (_, berr)) := Buffer.Write (buf st) chunk in
    match berr with
    | Some err =>
      {| w_state := {| buf := buf'; lineBuf := lineBuf st |}; w_world := w;
         w_n := 0; w_err := Some (wrapError "buffer output: " err "");
         w_calls := [] |}
    | None =>
      let '(lineBuf', w, calls) := feedLine callback chunk (lineBuf st) w [] in
      {| w_state := {| buf := buf'; lineBuf := lineBuf' |}; w_world := w;
         w_n := Z.of_nat (length chunk); w_err := None; w_calls := calls |}
    end
  end.

(** [Write] of [io.MultiWriter(extra, &buf)]. *)
Definition multiWrite (extra : Sink) (st : streamState) (w : W) (p : bytes)
    : written :=
  let '(w, (n, err)) := extra w p in
  match err with
  | Some e =>
    {| w_state := st; w_world := w; w_n := n; w_err := Some e; w_calls := [] |}
  | None =>
    if negb (n =? Z.of_nat (length p))%Z then
      {| w_state := st; w_world := w; w_n := n;
         w_err := Some io.ErrShortWrite; w_calls := [] |}
    else
      let '(buf', (n, err)) := Buffer.Write (buf st) p in
      let st := {| buf := buf'; lineBuf := lineBuf st |} in
      match err with
      | Some e =>
        {| w_state := st; w_world := w; w_n := n; w_err := Some e;
           w_calls := [] |}
      | None =>
        if negb (n =? Z.of_nat (length p))%Z then
          {| w_state := st; w_world := w; w_n := n;
             w_err := Some io.ErrShortWrite; w_calls := [] |}
        else
          {| w_state := st; w_world := w; w_n := Z.of_nat (length p);
             w_err := None; w_calls := [] |}
      end
  end.

Definition bufferWrite (st : streamState) (w : W) (p : bytes) : written :=
  let '(buf', (n, err)) := Buffer.Write (buf st) p in
  {| w_state := {| buf := buf'; lineBuf := lineBuf st |}; w_world := w;
     w_n := n; w_err := err; w_calls := [] |}.

(** [Write] on a writer of this package. *)
Definition Write (wr : writer) (st : streamState) (w : W) (p : bytes)
    : written :=
  match wr with
  | bufferWriter => bufferWrite st w p
  | multiWriter extra => multiWrite extra st w p
  | writerFunc callback extra => progressWrite callback extra st w p
  end.

Definition progressWriter (callback : option Callback) (extra : option Sink)
    : writer * streamState :=
  match callback with
  | None => teeWriter extra
  | Some callback => (writerFunc callback extra, newStream)
  end.

(** A sequence of chunks written one after the other: the final state and
    world, the error of each [Write], and all callback invocations. *)
Record trace := {
  t_state : streamState;
  t_world : W;
  t_errs : list (option error);
  t_calls : list ProgressUpdate
}.

Fixpoint writeAll (wr : writer) (st : streamState) (w : W)
    (chunks : list bytes) : trace :=
  match chunks with
  | [] => {| t_state := st; t_world := w; t_errs := []; t_calls := [] |}
  | p :: rest =>
    let r := Write wr st w p in
    let t := writeAll wr (w_state r) (w_world r) rest in
    {| t_state := t_state t; t_world := t_world t;
       t_errs := w_err r :: t_errs t; t_calls := w_calls r ++ t_calls t |}
  end.

(** The chunks whose [Write] returned no error, in order. *)
Fixpoint accepted (chunks : list bytes) (errs : list (option error))
    : list bytes :=
  match chunks, errs with
  | p :: chunks, None :: errs => p :: accepted chunks errs
  | _ :: chunks, Some _ :: errs => accepted chunks errs
  | _, _ => []
  end.

Definition isNil (e : option error) : bool :=
  match e with None => true | Some _ => false end.

End Streams.

Arguments Options : clear implicits.
Arguments writer : clear implicits.
Arguments written : clear implicits.
Arguments trace : clear implicits.
Arguments Sink : clear implicits.
Arguments Callback : clear implicits.

Section Invocation.

Context {W : Type}.

(** The keys in the order of one [for headerKey := range opts.Headers].
    Go fixes no order; [sort.Strings] follows before the keys are used. *)
Definition rangeKeys (m : gmap string string) : list string :=
  (map_to_list m).*1.

(** The loop over the sorted keys. *)
Definition addHeader (m : gmap string string) (args : list string)
    (headerKey : string) : list string :=
  let v := strings.TrimSpace (m !!! headerKey) in
  if String.eqb v "" then args
  else args ++ ["--add-header"; headerKey +:+ ":" +:+ v].

Definition buildArgs (url : string) (opts : Options W) : list string :=
  let args := ["--newline"] in
  let args :=
    match Progress opts with
    | Some _ => args ++ ["--progress-template"; progressTemplate]
    | None => args ++ ["--no-progress"]
    end in
  let args :=
    if negb (String.eqb (OutputTemplate opts) "")
    then args ++ ["-o"; OutputTemplate opts] else args in
  let args :=
    if negb (String.eqb (Format opts) "")
    then args ++ ["-f"; Format opts] else args in
  let args :=
    if negb (String.eqb (Proxy opts) "")
    then args ++ ["--proxy"; Proxy opts] else args in
  let args :=
    if negb (String.eqb (CookiesFile opts) "")
    then args ++ ["--cookies"; CookiesFile opts] else args in
  let args :=
    if (0 <? size (Headers opts))%nat then
      let keys := sort.Strings (rangeKeys (Headers opts)) in
      foldl (addHeader (Headers opts)) args keys
    else args in
  let args := args ++ ExtraArgs opts in
  args ++ [url].

(** *** The child process

    What [exec.Cmd] shows of one run of the child: the chunks its two pipes
    deliver, in the order the copying goroutines hand them to [cmd.Stdout]
    and [cmd.Stderr], and the error of starting or awaiting it (launch
    failure, non-zero exit, kill); a launch failure delivers no chunk. *)
Inductive stream := stdout | stderr.

Record process := {
  output : list (stream * bytes);
  exitErr : option error
}.

(** The state of [cmd.Run]: both streams, the first error that ended a
    copying goroutine on each, the earliest of the two, the world and the
    callback invocations. *)
Record running := {
  r_stdout : streamState;
  r_stderr : streamState;
  r_stdoutDone : bool;
  r_stderrDone : bool;
  r_copyErr : option error;
  r_world : W;
  r_calls : list ProgressUpdate
}.

(** The copying goroutines: [io.Copy] writes each chunk and stops at the
    first [Write] that fails. *)
Fixpoint copyOutput (outW errW : writer W) (evs : list (stream * bytes))
    (r : running) : running :=
  match evs with
  | [] => r
  | (stdout, p) :: evs =>
    if r_stdoutDone r then copyOutput outW errW evs r
    else
      let x := Write outW (r_stdout r) (r_world r) p in
      copyOutput outW errW evs
        {| r_stdout := w_state x; r_stderr := r_stderr r;
           r_stdoutDone := negb (isNil (w_err x));
           r_stderrDone := r_stderrDone r;
           r_copyErr := if isNil (r_copyErr r) then w_err x else r_copyErr r;
           r_world := w_world x; r_calls := r_calls r ++ w_calls x |}
  | (stderr, p) :: evs =>
    if r_stderrDone r then copyOutput outW errW evs r
    else
      let x := Write errW (r_stderr r) (r_world r) p in
      copyOutput outW errW evs
        {| r_stdout := r_stdout r; r_stderr := w_state x;
           r_stdoutDone := r_stdoutDone r;
           r_stderrDone := negb (isNil (w_err x));
           r_copyErr := if isNil (r_copyErr r) then w_err x else r_copyErr r;
           r_world := w_world x; r_calls := r_calls r ++ w_calls x |}
  end.

(** [cmd.Run]: the error of the child itself comes first, a copy error is
    reported only if the child otherwise succeeded. *)
Definition Run (outW errW : writer W) (outS errS : streamState)
    (p : process) (w : W) : running * option error :=
  let r :=
    copyOutput outW errW (output p)
      {| r_stdout := outS; r_stderr := errS; r_stdoutDone := false;
         r_stderrDone := false; r_copyErr := None; r_world := w;
         r_calls := [] |} in
  (r, match exitErr p with Some e => Some e | None => r_copyErr r end).

(** What the package meets outside itself: the file system seen by
    [os.Stat], the child that [exec.CommandContext(ctx, binPath, args...)]
    with [cmd.Dir] runs, and the value of [ctx.Err()] once [cmd.Run] has
    returned. *)
Record environment := {
  stat : string -> option error;
  command : string -> list string -> string -> process;
  ctxErr : option error
}.

(** [New]: [stat env] is the error of [os.Stat] on a path. *)
Definition New (env : environment) (binaryPath : string)
    : option Downloader * option error :=
  if String.eqb binaryPath "" then (None, Some errEmptyBinaryPath)
  else
    match stat env binaryPath with
    | Some err => (None, Some (wrapError "stat yt-dlp binary: " err ""))
    | None => (Some {| binPath := binaryPath |}, None)
    end.

Definition NewWithBinary (env : environment) (path : string)
    : option Downloader * option error :=
  New env path.

Definition Close (d : Downloader) : option error := None.

Record downloaded := {
  d_result : option Result;
  d_err : option error;
  d_world : W;
  d_calls : list ProgressUpdate
}.

Definition Download (d : Downloader) (env : environment) (url : string)
    (opts : Options W) (w : W) : downloaded :=
  if String.eqb url "" then
    {| d_result := None; d_err := Some errURLRequired; d_world := w;
       d_calls := [] |}
  else if String.eqb (binPath d) "" then
    {| d_result := None; d_err := Some errBinaryNotConfigured; d_world := w;
       d_calls := [] |}
  else
    let args := buildArgs url opts in
    let cmd := command env (binPath d) args (WorkDir opts) in
    let '(stdoutWriter, stdoutBuf) :=
      progressWriter (Progress opts) (Stdout opts) in
    let '(stderrWriter, stderrBuf) := teeWriter (Stderr opts) in
    let '(r, err) := Run stdoutWriter stderrWriter stdoutBuf stderrBuf cmd w in
    let result :=
      {| Result_Stdout := buf (r_stdout r);
         Result_Stderr := buf (r_stderr r) |} in
    match err with
    | Some err =>
      match ctxErr env with
      | Some ctxErr =>
        {| d_result := Some result;
           d_err := Some (wrapError "context done: " ctxErr "");
           d_world := r_world r; d_calls := r_calls r |}
      | None =>
        {| d_result := Some result;
           d_err :=
             Some (wrapError "yt-dlp failed: " err
                     (String LF (str (strings.trimSpace (Result_Stderr result)))));
           d_world := r_world r; d_calls := r_calls r |}
      end
    | None =>
      {| d_result := Some result; d_err := None; d_world := r_world r;
         d_calls := r_calls r |}
    end.

End Invocation.

Arguments process : clear implicits.
Arguments running : clear implicits.
Arguments environment : clear implicits.
Arguments downloaded : clear implicits.

(** ** Vocabulary of the statements *)

(** The caller's sink a writer was built over, if any. *)
Definition sinkOf {W} (wr : writer W) : option (Sink W) :=
  match wr with
  | bufferWriter => None
  | multiWriter extra => Some extra
  | writerFunc _ extra => extra
  end.

(** The chunks one stream of the child delivers. *)
Definition chunksOf (s : stream) (evs : list (stream * bytes)) : list bytes :=
  omap (fun ev : stream * bytes =>
          match s, ev.1 with
          | stdout, stdout | stderr, stderr => Some ev.2
          | _, _ => None
          end) evs.

(** The line decoder on its own: the pending bytes and the updates that
    the bytes of [chunk] complete, without the caller's world. *)
Fixpoint decodeLines (chunk : bytes) (lineBuf : bytes)
    : bytes * list ProgressUpdate :=
  match chunk with
  | [] => (lineBuf, [])
  | b :: rest =>
    if Ascii.eqb b LF then
      let '(pending, calls) := decodeLines rest [] in
      match parseProgress (strings.TrimSpace (str (lineBuf ++ [b]))) with
      | (upd, true) => (pending, upd :: calls)
      | (_, false) => (pending, calls)
      end
    else decodeLines rest (lineBuf ++ [b])
  end.

(** The first field of a line as [parseProgress] normalises it. *)
Definition firstField (line : string) : string :=
  rawPercentOf (nth 0 (strings.Split line "|"%char) "").

(** The first field normalised the other way round, white space trimmed
    first and one trailing percent sign stripped after that: the order in
    which C5 is worded, not the order of [parseProgress]. *)
Definition trimmedThenStripped (part0 : string) : string :=
  strings.TrimSuffix (strings.TrimSpace part0) "%".

(** A byte below [utf8.RuneSelf] that is no ASCII space. *)
Definition solid (c : ascii) : bool :=
  (byteN c <? utf8.RuneSelf)%N && negb (strings.asciiSpace (byteN c)).

(** A string of ASCII white space only. *)
Definition isSpaces (s : string) : bool :=
  forallb (fun c => strings.asciiSpace (byteN c)) (bytesOf s).

(** The rational a finite float stands for. *)
Definition valueOf (f : float64) : option Q :=
  match f with
  | S754_zero _ => Some 0%Q
  | S754_finite s m e =>
    let q := if (0 <=? e)%Z then inject_Z (Zpos m * 2 ^ e)
             else Qmake (Zpos m) (Z.to_pos (2 ^ (- e))) in
    Some (Qred (if s then Qopp q else q))
  | _ => None
  end.

Definition f64_0 : float64 := S754_zero false.
Definition f64_100 : float64 := S754_finite false 7036874417766400 (-46).
Definition f64_42_5 : float64 := S754_finite false 5981343255101440 (-47).
Definition f64_150 : float64 := S754_finite false 5277655813324800 (-45).

(** [0 <= f <= 100] on floats. *)
Definition onPercentScale (f : float64) : bool :=
  SFleb f64_0 f && SFleb f f64_100.

(** The two tokens of one header flag. *)
Definition headerFlag (m : gmap string string) (headerKey : string)
    : list string :=
  ["--add-header"; headerKey +:+ ":" +:+ strings.TrimSpace (m !!! headerKey)].

(** The same options with no header and no extra argument. *)
Definition withoutHeaders {W} (opts : Options W) : Options W :=
  {| OutputTemplate := OutputTemplate opts; Format := Format opts;
     Proxy := Proxy opts; CookiesFile := CookiesFile opts; Headers := ∅;
     ExtraArgs := []; WorkDir := WorkDir opts; Stdout := Stdout opts;
     Stderr := Stderr opts; Progress := Progress opts |}.

(** The child that [Download] runs, and the state in which [cmd.Run]
    leaves the two writers of [Download]. *)
Definition childOf {W} (d : Downloader) (env : environment) (url : string)
    (opts : Options W) : process :=
  command env (binPath d) (buildArgs url opts) (WorkDir opts).

Definition captured {W} (opts : Options W) (p : process) (w : W) : running W :=
  (Run (progressWriter (Progress opts) (Stdout opts)).1
       (teeWriter (Stderr opts)).1 newStream newStream p w).1.

(** *** Sample callers *)

(** A sink that keeps what it is given. *)
Definition keepSink : Sink bytes :=
  fun w p => (w ++ p, (Z.of_nat (length p), None)).

(** A sink that is closed: every write fails. *)
Definition closedSink : Sink bytes :=
  fun w p => (w, (0%Z, Some (errorString "closed"))).

(** A callback that leaves the world alone. *)
Definition quietCallback : Callback bytes := fun _ w => w.

Definition noOptions : Options bytes :=
  {| OutputTemplate := ""; Format := ""; Proxy := ""; CookiesFile := "";
     Headers := ∅; ExtraArgs := []; WorkDir := ""; Stdout := None;
     Stderr := None; Progress := None |}.

Definition zaHeaders : Options bytes :=
  {| OutputTemplate := ""; Format := ""; Proxy := ""; CookiesFile := "";
     Headers := {[ "Z" := "1"; "A" := "2" ]}; ExtraArgs := ["--verbose"];
     WorkDir := ""; Stdout := None; Stderr := None; Progress := None |}.

(** A child that prints on both streams and then exits with status 1. *)
Definition failingChild : environment :=
  {| stat := fun _ => None;
     command := fun _ _ _ =>
       {| output := [(stdout, bytesOf "partial"); (stderr, bytesOf "boom")];
          exitErr := Some (errorString "exit status 1") |};
     ctxErr := None |}.

(** ** The rest of the program *)

(** [buildArgs] with the order in which
    [for headerKey := range opts.Headers] yields the keys as an argument:
    Go leaves that order open, and it may differ from one call to the
    next. *)
Definition buildArgsIn {W} (order : list string) (url : string)
    (opts : Options W) : list string :=
  let args := ["--newline"] in
  let args :=
    match Progress opts with
    | Some _ => args ++ ["--progress-template"; progressTemplate]
    | None => args ++ ["--no-progress"]
    end in
  let args :=
    if negb (String.eqb (OutputTemplate opts) "")
    then args ++ ["-o"; OutputTemplate opts] else args in
  let args :=
    if negb (String.eqb (Format opts) "")
    then args ++ ["-f"; Format opts] else args in
  let args :=
    if negb (String.eqb (Proxy opts) "")
    then args ++ ["--proxy"; Proxy opts] else args in
  let args :=
    if negb (String.eqb (CookiesFile opts) "")
    then args ++ ["--cookies"; CookiesFile opts] else args in
  let args :=
    if (0 <? size (Headers opts))%nat then
      let keys := sort.Strings order in
      foldl (addHeader (Headers opts)) args keys
    else args in
  let args := args ++ ExtraArgs opts in
  args ++ [url].

(** One completed line, without its line feed, as the closure of
    [progressWriter] decodes it. *)
Definition decodeLine (l : bytes) : option ProgressUpdate :=
  match parseProgress (strings.TrimSpace (str (l ++ [LF]))) with
  | (upd, true) => Some upd
  | (_, false) => None
  end.

(** The callback applied to updates in order. *)
Definition deliver {W} (callback : Callback W) (w : W)
    (calls : list ProgressUpdate) : W :=
  foldl (fun w upd => callback upd w) w calls.

(** *** The program [examples/simple]

    [run] reads the binary path from the environment variable, builds a
    downloader and downloads one fixed URL under [context.Background()],
    whose [Err()] is always [nil]. [printProgress] is the progress closure
    (a [fmt.Printf]); [finished] is the [fmt.Print] and [log.Printf] that
    follow a successful download, given [res.Stdout]. A [nil] pointer that
    the program would dereference is the outcome [nilDereference]. *)
Definition errMissingYTDLPPath : error :=
  errorString "set YTDLP_PATH to yt-dlp executable path".

Inductive outcome :=
  | returned (err : option error)
  | nilDereference.

Definition exampleURL : string := "https://disk.yandex.ru/i/VU3FlHnD_gcwzw".

Definition exampleOptions {W} (printProgress : Callback W) : Options W :=
  {| OutputTemplate := "%(title)s.%(ext)s";
     Format := "bestvideo+bestaudio/best";
     Proxy := ""; CookiesFile := ""; Headers := ∅; ExtraArgs := [];
     WorkDir := ""; Stdout := None; Stderr := None;
     Progress := Some printProgress |}.

Definition run {W} (env : environment) (ytDLPPath : string)
    (printProgress : Callback W) (finished : bytes -> W -> W) (w : W)
    : outcome * W :=
  let env :=
    {| stat := stat env; command := command env; ctxErr := None |} in
  if String.eqb ytDLPPath "" then (returned (Some errMissingYTDLPPath), w)
  else
    match New env ytDLPPath with
    | (_, Some err) =>
      (returned (Some (wrapError "create downloader: " err "")), w)
    | (None, None) => (nilDereference, w)
    | (Some downloaderClient, None) =>
      let x :=
        Download downloaderClient env exampleURL
          (exampleOptions printProgress) w in
      match d_err x with
      | Some err =>
        match d_result x with
        | None => (nilDereference, d_world x)
        | Some res =>
          (returned
             (Some (wrapError "download failed: " err
                      (String LF ("stderr:" +:+ String LF (str (Result_Stderr res)))))),
           d_world x)
        end
      | None =>
        match d_result x with
        | None => (nilDereference, d_world x)
        | Some res => (returned None, finished (Result_Stdout res) (d_world x))
        end
      end
    end.

(** A child that prints two progress lines and a log line, then exits
    with status 0, under a context that is already cancelled. *)
Definition finishingChild : environment :=
  {| stat := fun _ => None;
     command := fun _ _ _ =>
       {| output := [(stdout, bytesOf " 10.0%|00:09|1.0MiB/s" ++ [LF]);
                     (stderr, bytesOf "WARNING: slow" ++ [LF]);
                     (stdout, bytesOf "[download] Destination: a.mp4" ++ [LF]
                              ++ bytesOf "100%|00:00|");
                     (stdout, bytesOf "2.0MiB/s" ++ [LF])];
          exitErr := None |};
     ctxErr := Some (errorString "context canceled") |}.

(** A sink that takes one byte of every chunk and reports no error. *)
Definition shortSink : Sink bytes :=
  fun w p => (w ++ take 1 p, (Z.of_nat (length (take 1 p)), None)).

(** A callback that keeps the raw lines it is given. *)
Definition rawCallback : Callback bytes :=
  fun upd w => w ++ bytesOf (Raw upd) ++ [LF].

(** * Properties *)

(** ** The library models on known values *)

Example TrimSpace_ascii : strings.TrimSpace "  42.5%  " = "42.5%".
Proof. reflexivity. Qed.

(** U+00A0 before and U+2003 after the text are white space; a lone
    continuation byte is not. *)
Example TrimSpace_unicode :
  strings.TrimSpace
    (str ["194"; "160"; " "; "a"; " "; "b"; "226"; "128"; "131"; " "]%char)
  = "a b"
  ∧ strings.TrimSpace (str [" "; "x"; "128"; " "]%char)
    = str ["x"; "128"]%char.
Proof. split; vm_compute; reflexivity. Qed.

Example TrimSuffix_percent :
  strings.TrimSuffix "42.5%" "%" = "42.5"
  ∧ strings.TrimSuffix "42.5%  " "%" = "42.5%  "
  ∧ strings.TrimSuffix "%" "%" = "".
Proof. repeat split; vm_compute; reflexivity. Qed.

Example Split_bar :
  strings.Split "a|b|c" "|" = ["a"; "b"; "c"]
  ∧ strings.Split "" "|" = [""]
  ∧ strings.Split "a||" "|" = ["a"; ""; ""].
Proof. repeat split; vm_compute; reflexivity. Qed.

Example ParseFloat_values :
  strconv.ParseFloat "42.5" 64 = (f64_42_5, None)
  ∧ strconv.ParseFloat "100" 64 = (f64_100, None)
  ∧ strconv.ParseFloat "0.1" 64
    = (S754_finite false 7205759403792794 (-56), None)
  ∧ strconv.ParseFloat "9007199254740993" 64
    = (S754_finite false 4503599627370496 1, None)
  ∧ strconv.ParseFloat "0x1.8p1" 64 = (S754_finite false 6755399441055744 (-51), None)
  ∧ strconv.ParseFloat "1_000" 64 = strconv.ParseFloat "1000" 64
  ∧ strconv.ParseFloat "-Inf" 64 = (S754_infinity true, None)
  ∧ strconv.ParseFloat "nan" 64 = (S754_nan, None).
Proof. repeat split; vm_compute; reflexivity. Qed.

Example ParseFloat_errors :
  strconv.ParseFloat "42.5%" 64
  = (S754_zero false, Some (strconv.syntaxError "ParseFloat" "42.5%"))
  ∧ strconv.ParseFloat "" 64
    = (S754_zero false, Some (strconv.syntaxError "ParseFloat" ""))
  ∧ strconv.ParseFloat "1e400" 64
    = (S754_infinity false, Some (strconv.rangeError "ParseFloat" "1e400")).
Proof. repeat split; vm_compute; reflexivity. Qed.

(** ** The line decoder *)

Section StreamFacts.

Context {W : Type}.
Implicit Types (wr : writer W) (st : streamState) (w : W) (p : bytes).

Lemma feedLine_decodeLines (callback : Callback W) chunk lineBuf w calls :
  let '(pending, w', calls') := feedLine callback chunk lineBuf w calls in
  pending = (decodeLines chunk lineBuf).1
  ∧ calls' = calls ++ (decodeLines chunk lineBuf).2.
Proof.
  revert lineBuf w calls.
  induction chunk as [|b rest IH]; intros lineBuf w calls; simpl.
  { by rewrite app_nil_r. }
  destruct (Ascii.eqb b LF).
  - destruct (parseProgress _) as [upd [|]].
    + specialize (IH [] (callback upd w) (calls ++ [upd])).
      destruct (feedLine _ _ _ _ _) as [[pending w'] calls'].
      destruct (decodeLines rest []) as [pd cs]; simpl in *.
      destruct IH as [-> ->]. by rewrite <- app_assoc.
    + specialize (IH [] w calls).
      destruct (feedLine _ _ _ _ _) as [[pending w'] calls'].
      by destruct (decodeLines rest []) as [pd cs].
  - apply IH.
Qed.

Lemma decodeLines_app a b lineBuf :
  decodeLines (a ++ b) lineBuf =
  let '(pa, ca) := decodeLines a lineBuf in
  let '(pb, cb) := decodeLines b pa in
  (pb, ca ++ cb).
Proof.
  revert lineBuf. induction a as [|x a IH]; intros lineBuf; simpl.
  { by destruct (decodeLines b lineBuf). }
  destruct (Ascii.eqb x LF).
  - rewrite IH. destruct (decodeLines a []) as [pa ca].
    destruct (parseProgress _) as [upd [|]]; simpl;
      by destruct (decodeLines b pa) as [pb cb].
  - apply IH.
Qed.

Lemma decodeLines_no_LF tail lineBuf :
  LF ∉ tail → decodeLines tail lineBuf = (lineBuf ++ tail, []).
Proof.
  revert lineBuf. induction tail as [|x tail IH]; intros lineBuf Hno; simpl.
  { by rewrite app_nil_r. }
  apply not_elem_of_cons in Hno as [Hx Hno].
  destruct (Ascii.eqb_spec x LF) as [->|_]; [done|].
  rewrite IH by done. by rewrite <- app_assoc.
Qed.

(** *** One [Write] *)

Lemma Write_buf wr st w p :
  buf (w_state (Write wr st w p)) =
  if isNil (w_err (Write wr st w p)) then buf st ++ p else buf st.
Proof.
  destruct wr as [|extra|callback extra]; simpl.
  - done.
  - unfold multiWrite. destruct (extra w p) as [w' [n [e|]]]; simpl; [done|].
    destruct (n =? _)%Z; simpl; [|done].
    by rewrite Z.eqb_refl.
  - unfold progressWrite.
    destruct extra as [extra|].
    + destruct (extra w p) as [w' [n [e|]]]; simpl; [done|].
      by destruct (feedLine _ _ _ _ _) as [[? ?] ?].
    + simpl. by destruct (feedLine _ _ _ _ _) as [[? ?] ?].
Qed.

Lemma Write_no_sink wr st w p : sinkOf wr = None → w_err (Write wr st w p) = None.
Proof.
  destruct wr as [|extra|callback extra]; simpl; [done|done|].
  intros ->. unfold progressWrite; simpl.
  by destruct (feedLine _ _ _ _ _) as [[? ?] ?].
Qed.

Lemma progressWrite_ok (callback : Callback W) extra st w p :
  w_err (progressWrite callback extra st w p) = None →
  lineBuf (w_state (progressWrite callback extra st w p))
    = (decodeLines p (lineBuf st)).1
  ∧ w_calls (progressWrite callback extra st w p)
    = (decodeLines p (lineBuf st)).2.
Proof.
  unfold progressWrite.
  destruct extra as [extra|]; simpl.
  - destruct (extra w p) as [w' [n [e|]]]; simpl; [done|].
    pose proof (feedLine_decodeLines callback p (lineBuf st) w' []) as H.
    destruct (feedLine _ _ _ _ _) as [[? ?] ?]; simpl. by intros _.
  - pose proof (feedLine_decodeLines callback p (lineBuf st) w []) as H.
    destruct (feedLine _ _ _ _ _) as [[? ?] ?]; simpl. by intros _.
Qed.

Lemma progressWrite_failed (callback : Callback W) extra st w p e :
  w_err (progressWrite callback extra st w p) = Some e →
  w_state (progressWrite callback extra st w p) = st
  ∧ w_calls (progressWrite callback extra st w p) = [].
Proof.
  unfold progressWrite.
  destruct extra as [extra|]; simpl.
  - destruct (extra w p) as [w' [n [e'|]]]; simpl; [done|].
    by destruct (feedLine _ _ _ _ _) as [[? ?] ?].
  - by destruct (feedLine _ _ _ _ _) as [[? ?] ?].
Qed.

(** *** Sequences of writes *)

Lemma writeAll_buf wr st w chunks :
  buf (t_state (writeAll wr st w chunks)) =
  buf st ++ concat (accepted chunks (t_errs (writeAll wr st w chunks))).
Proof.
  revert st w. induction chunks as [|p chunks IH]; intros st w; simpl.
  { by rewrite app_nil_r. }
  rewrite IH, Write_buf.
  destruct (w_err (Write wr st w p)); simpl; [done|].
  by rewrite <- app_assoc.
Qed.

Lemma accepted_all chunks (errs : list (option error)) :
  length errs = length chunks → Forall (eq None) errs →
  accepted chunks errs = chunks.
Proof.
  revert errs. induction chunks as [|p chunks IH]; intros [|e errs]; simpl;
    try done.
  intros [= Hlen] Hall. apply Forall_cons in Hall as [<- Hall].
  by rewrite IH.
Qed.

Lemma writeAll_errs_length wr st w chunks :
  length (t_errs (writeAll wr st w chunks)) = length chunks.
Proof.
  revert st w. induction chunks as [|p chunks IH]; intros st w; simpl; auto.
Qed.

Lemma writeAll_no_sink wr st w chunks :
  sinkOf wr = None → Forall (eq None) (t_errs (writeAll wr st w chunks)).
Proof.
  intros Hno. revert st w.
  induction chunks as [|p chunks IH]; intros st w; simpl; constructor; auto.
  by rewrite Write_no_sink.
Qed.

Lemma writeAll_calls (callback : Callback W) extra st w chunks :
  Forall (eq None) (t_errs (writeAll (writerFunc callback extra) st w chunks)) →
  lineBuf (t_state (writeAll (writerFunc callback extra) st w chunks))
    = (decodeLines (concat chunks) (lineBuf st)).1
  ∧ t_calls (writeAll (writerFunc callback extra) st w chunks)
    = (decodeLines (concat chunks) (lineBuf st)).2.
Proof.
  revert st w. induction chunks as [|p chunks IH]; intros st w; simpl.
  { done. }
  intros Hall. apply Forall_cons in Hall as [Hp Hall].
  symmetry in Hp. destruct (progressWrite_ok _ _ _ _ _ Hp) as [Hl Hc].
  destruct (IH _ _ Hall) as [IHl IHc].
  rewrite IHl, IHc, Hl, Hc, decodeLines_app.
  destruct (decodeLines p (lineBuf st)) as [pa ca]; simpl.
  by destruct (decodeLines (concat chunks) pa).
Qed.

End StreamFacts.

(** ** The accumulation buffer *)

(** C1, as amended. After any sequence of chunks written to a writer of this
    package, the buffer holds, after what it held before, the concatenation
    in arrival order of the chunks whose [Write] returned no error. It holds
    every chunk when no write failed, which is always so when no sink is
    configured. *)
Theorem buffer_is_concat_of_accepted_chunks {W : Type} (wr : writer W)
    (st : streamState) (w : W) (chunks : list bytes) :
  let t := writeAll wr st w chunks in
  buf (t_state t) = buf st ++ concat (accepted chunks (t_errs t))
  ∧ (Forall (eq None) (t_errs t) → buf (t_state t) = buf st ++ concat chunks)
  ∧ (sinkOf wr = None → buf (t_state t) = buf st ++ concat chunks).
Proof.
  intros t. subst t. split; [apply writeAll_buf|].
  assert (Forall (eq None) (t_errs (writeAll wr st w chunks)) →
          buf (t_state (writeAll wr st w chunks)) = buf st ++ concat chunks)
    as Hall.
  { intros Hall. rewrite writeAll_buf, accepted_all; auto.
    apply writeAll_errs_length. }
  split; [exact Hall|].
  intros Hno. by apply Hall, writeAll_no_sink.
Qed.

(** C1 as the spec words it fails: with a sink whose write errors, on
    stderr as on stdout, the chunk written is missing from the buffer. *)
Lemma closed_sink_chunk_not_accumulated :
  buf (t_state (writeAll (teeWriter (Some closedSink)).1 newStream []
                  [bytesOf "a"]))
    ≠ concat [bytesOf "a"]
  ∧ buf (t_state (writeAll
                    (progressWriter (Some quietCallback) (Some closedSink)).1
                    newStream [] [bytesOf "a"]))
    ≠ concat [bytesOf "a"].
Proof. split; vm_compute; discriminate. Qed.

(** C2. When the sink's write of a chunk returns an error, the write of
    the chunk fails with that error (wrapped as "write passthrough: ..." on
    the progress path, as it is on the tee path), the buffer and the pending
    line are as before, and no callback ran. *)
Theorem passthrough_error_leaves_buffer {W : Type} (extra : Sink W)
    (callback : option (Callback W)) (st : streamState) (w w' : W)
    (p : bytes) (n : Z) (e : error) :
  extra w p = (w', (n, Some e)) →
  let out := Write (progressWriter callback (Some extra)).1 st w p in
  let err := Write (teeWriter (Some extra)).1 st w p in
  w_err out = Some (match callback with
                    | Some _ => wrapError "write passthrough: " e ""
                    | None => e
                    end)
  ∧ w_err err = Some e
  ∧ w_state out = st ∧ w_state err = st
  ∧ w_calls out = [] ∧ w_calls err = []
  ∧ w_world out = w' ∧ w_world err = w'.
Proof.
  intros Hsink out err. subst out err.
  destruct callback as [callback|]; simpl;
    unfold progressWrite, multiWrite; rewrite Hsink; simpl; done.
Qed.

Lemma passthrough_error_leaves_buffer_witness :
  closedSink [] (bytesOf "lost") = ([], (0%Z, Some (errorString "closed")))
  ∧ w_state (Write (progressWriter (Some quietCallback) (Some closedSink)).1
               {| buf := bytesOf "kept"; lineBuf := [] |} [] (bytesOf "lost"))
    = {| buf := bytesOf "kept"; lineBuf := [] |}.
Proof.
  split; [reflexivity|].
  destruct (passthrough_error_leaves_buffer closedSink (Some quietCallback)
              {| buf := bytesOf "kept"; lineBuf := [] |} [] []
              (bytesOf "lost") 0 (errorString "closed") eq_refl)
    as (_ & _ & H & _).
  exact H.
Defined.

(** C3. Two segmentations of one byte stream, each written to the stdout
    writer with every write succeeding, leave the same buffer: the stream
    itself. *)
Theorem chunking_does_not_change_buffer {W : Type}
    (callback : option (Callback W)) (extra : option (Sink W)) (w1 w2 : W)
    (chunks1 chunks2 : list bytes) :
  concat chunks1 = concat chunks2 →
  Forall (eq None)
    (t_errs (writeAll (progressWriter callback extra).1 newStream w1 chunks1)) →
  Forall (eq None)
    (t_errs (writeAll (progressWriter callback extra).1 newStream w2 chunks2)) →
  buf (t_state (writeAll (progressWriter callback extra).1 newStream w1 chunks1))
  = buf (t_state (writeAll (progressWriter callback extra).1 newStream w2 chunks2))
  ∧ buf (t_state (writeAll (progressWriter callback extra).1 newStream w1 chunks1))
    = concat chunks1.
Proof.
  intros Heq H1 H2.
  rewrite !writeAll_buf.
  rewrite !accepted_all by auto using writeAll_errs_length.
  simpl. by rewrite Heq.
Qed.

Lemma chunking_does_not_change_buffer_witness :
  buf (t_state (writeAll (progressWriter (Some quietCallback) (Some keepSink)).1
                  newStream [] [bytesOf "10%|a"; bytesOf "|b"]))
  = buf (t_state (writeAll (progressWriter (Some quietCallback) (Some keepSink)).1
                    newStream [] [bytesOf "1"; bytesOf "0%|a|"; bytesOf "b"])).
Proof.
  refine (proj1 (chunking_does_not_change_buffer (Some quietCallback)
                   (Some keepSink) [] []
                   [bytesOf "10%|a"; bytesOf "|b"]
                   [bytesOf "1"; bytesOf "0%|a|"; bytesOf "b"] _ _ _)).
  - reflexivity.
  - vm_compute. repeat constructor.
  - vm_compute. repeat constructor.
Defined.

(** ** Unterminated lines *)

(** C6. A tail without line feed, appended to a byte stream in any
    segmentation, adds no callback invocation: the invocations are those of
    the stream without the tail, and the tail stays pending. Writing a chunk
    without line feed invokes no callback, whatever is pending. *)
Theorem unterminated_tail_is_never_delivered {W : Type}
    (callback : Callback W) (extra : option (Sink W)) (st : streamState)
    (w w' : W) (chunks chunks' : list bytes) (tail : bytes) :
  LF ∉ tail →
  concat chunks' = concat chunks ++ tail →
  Forall (eq None) (t_errs (writeAll (writerFunc callback extra) st w chunks)) →
  Forall (eq None) (t_errs (writeAll (writerFunc callback extra) st w' chunks')) →
  t_calls (writeAll (writerFunc callback extra) st w' chunks')
  = t_calls (writeAll (writerFunc callback extra) st w chunks)
  ∧ lineBuf (t_state (writeAll (writerFunc callback extra) st w' chunks'))
    = lineBuf (t_state (writeAll (writerFunc callback extra) st w chunks)) ++ tail
  ∧ w_calls (Write (writerFunc callback extra) st w tail) = [].
Proof.
  intros Hno Heq H1 H2.
  destruct (writeAll_calls _ _ _ _ _ H1) as [Hl1 Hc1].
  destruct (writeAll_calls _ _ _ _ _ H2) as [Hl2 Hc2].
  rewrite Hl1, Hl2, Hc1, Hc2, Heq, decodeLines_app.
  destruct (decodeLines (concat chunks) (lineBuf st)) as [pa ca].
  rewrite decodeLines_no_LF by done. simpl. rewrite app_nil_r.
  split; [done|]. split; [done|].
  destruct (w_err (progressWrite callback extra st w tail)) as [e|] eqn:He.
  - by destruct (progressWrite_failed _ _ _ _ _ _ He).
  - destruct (progressWrite_ok _ _ _ _ _ He) as [_ ->].
    by rewrite decodeLines_no_LF.
Qed.

Lemma unterminated_tail_is_never_delivered_witness :
  t_calls (writeAll (writerFunc quietCallback None) newStream []
             [bytesOf "10%|a|b" ++ [LF] ++ bytesOf "20%|"; bytesOf "c|d"])
  = t_calls (writeAll (writerFunc quietCallback None) newStream []
               [bytesOf "10%|a|b" ++ [LF]]).
Proof.
  refine (proj1 (unterminated_tail_is_never_delivered quietCallback None
                   newStream [] [] [bytesOf "10%|a|b" ++ [LF]]
                   [bytesOf "10%|a|b" ++ [LF] ++ bytesOf "20%|"; bytesOf "c|d"]
                   (bytesOf "20%|c|d") _ _ _ _)).
  - vm_compute. intros H. repeat (apply elem_of_cons in H as [H|H]; [discriminate H|]).
    by apply elem_of_nil in H.
  - reflexivity.
  - vm_compute. repeat constructor.
  - vm_compute. repeat constructor.
Defined.

(** ** Strings *)

Lemma bytesOf_app (a b : string) : bytesOf (a +:+ b) = bytesOf a ++ bytesOf b.
Proof. induction a as [|c a IH]; simpl; [done|]. by rewrite IH. Qed.

Lemma str_app (a b : bytes) : str (a ++ b) = str a +:+ str b.
Proof. induction a as [|c a IH]; simpl; [done|]. by rewrite IH. Qed.

Lemma str_bytesOf (s : string) : str (bytesOf s) = s.
Proof. apply string_of_list_ascii_of_string. Qed.

Lemma bytesOf_str (b : bytes) : bytesOf (str b) = b.
Proof. apply list_ascii_of_string_of_list_ascii. Qed.

Lemma length_bytesOf (s : string) : length (bytesOf s) = String.length s.
Proof. induction s as [|c s IH]; simpl; auto. Qed.

Lemma string_app_assoc (a b c : string) : (a +:+ b) +:+ c = a +:+ (b +:+ c).
Proof.
  induction a as [|x a IH]; [done|].
  change (String x ((a +:+ b) +:+ c) = String x (a +:+ (b +:+ c))).
  by rewrite IH.
Qed.

Lemma Split_no_sep (a : string) (sep : ascii) :
  sep ∉ bytesOf a → strings.Split a sep = [a].
Proof.
  induction a as [|c a IH]; simpl; [done|].
  intros [Hc Ha]%not_elem_of_cons.
  destruct (Ascii.eqb_spec c sep) as [->|_]; [done|].
  by rewrite IH.
Qed.

Lemma Split_app_sep (a b : string) (sep : ascii) :
  sep ∉ bytesOf a →
  strings.Split (a +:+ String sep b) sep = a :: strings.Split b sep.
Proof.
  induction a as [|c a IH]; simpl.
  { intros _. by rewrite Ascii.eqb_refl. }
  intros [Hc Ha]%not_elem_of_cons.
  destruct (Ascii.eqb_spec c sep) as [->|_]; [done|].
  by rewrite IH.
Qed.

Lemma TrimSuffix_app (x suffix : string) :
  strings.TrimSuffix (x +:+ suffix) suffix = x.
Proof.
  unfold strings.TrimSuffix, strings.HasSuffix.
  rewrite bytesOf_app, length_app, !length_bytesOf.
  assert (String.length (x +:+ suffix)
          = String.length x + String.length suffix)%nat as ->.
  { rewrite <- !length_bytesOf, bytesOf_app. apply length_app. }
  replace (String.length x + String.length suffix - String.length suffix)%nat
    with (String.length x) by lia.
  rewrite <- (length_bytesOf x), drop_app_length, take_app_length.
  rewrite bool_decide_eq_true_2 by done.
  destruct (_ <=? _)%nat eqn:Hle.
  - apply str_bytesOf.
  - apply Nat.leb_gt in Hle. rewrite !length_bytesOf in Hle. lia.
Qed.

(** *** [TrimSpace] around ASCII text *)

Lemma isSpaces_spec (s : string) :
  isSpaces s = true ↔
  Forall (fun c => strings.asciiSpace (byteN c) = true) (bytesOf s).
Proof.
  unfold isSpaces. rewrite forallb_forall, Forall_forall.
  split; intros H c Hc; apply H; by apply list_elem_of_In.
Qed.

Lemma asciiSpace_below c :
  strings.asciiSpace (byteN c) = true → (utf8.RuneSelf <=? byteN c)%N = false.
Proof.
  unfold strings.asciiSpace, utf8.RuneSelf. intros H. apply N.leb_gt.
  apply orb_true_iff in H as [[_ H]%andb_true_iff | H].
  - apply N.leb_le in H. lia.
  - apply N.eqb_eq in H. lia.
Qed.

Lemma skipASCIISpace_spaces (ws : bytes) (c : ascii) (rest : bytes) :
  Forall (fun c => strings.asciiSpace (byteN c) = true) ws →
  solid c = true →
  strings.skipASCIISpace (ws ++ c :: rest) = (c :: rest, false).
Proof.
  intros Hws [Hc1 Hc2]%andb_true_iff.
  induction Hws as [|x ws Hx _ IH]; simpl.
  - apply N.ltb_lt in Hc1.
    destruct (N.leb_spec utf8.RuneSelf (byteN c)); [lia|].
    by apply negb_true_iff in Hc2 as ->.
  - by rewrite (asciiSpace_below _ Hx), Hx.
Qed.

Lemma trimSpace_padded (ws1 ws2 core : bytes) (c d : ascii) :
  Forall (fun c => strings.asciiSpace (byteN c) = true) ws1 →
  Forall (fun c => strings.asciiSpace (byteN c) = true) ws2 →
  head core = Some c → last core = Some d →
  solid c = true → solid d = true →
  strings.trimSpace (ws1 ++ core ++ ws2) = core.
Proof.
  intros H1 H2 Hc Hd Sc Sd. unfold strings.trimSpace.
  destruct core as [|c' core']; [done|]. simpl in Hc. injection Hc as ->.
  rewrite <- app_comm_cons, skipASCIISpace_spaces by done.
  apply last_Some in Hd as [front Hfront].
  change (c :: core' ++ ws2) with ((c :: core') ++ ws2).
  rewrite Hfront, rev_app_distr, rev_unit.
  rewrite skipASCIISpace_spaces; [|by apply Forall_rev|done].
  simpl. by rewrite rev_involutive.
Qed.

Lemma TrimSpace_padded (w1 w2 core : string) (c d : ascii) :
  isSpaces w1 = true → isSpaces w2 = true →
  head (bytesOf core) = Some c → last (bytesOf core) = Some d →
  solid c = true → solid d = true →
  strings.TrimSpace (w1 +:+ core +:+ w2) = core.
Proof.
  intros H1%isSpaces_spec H2%isSpaces_spec Hc Hd Sc Sd.
  unfold strings.TrimSpace. rewrite !bytesOf_app.
  rewrite (trimSpace_padded _ _ _ c d) by done. apply str_bytesOf.
Qed.

Lemma isSpaces_no_bar (w : string) : isSpaces w = true → "|"%char ∉ bytesOf w.
Proof.
  intros H%isSpaces_spec Hin.
  rewrite Forall_forall in H. by specialize (H _ Hin).
Qed.

(** ** The progress record decoder *)

Lemma no_bar_check (l : bytes) :
  forallb (fun c => negb (Ascii.eqb c "|")) l = true → "|"%char ∉ l.
Proof.
  rewrite forallb_forall. intros H Hin%list_elem_of_In.
  specialize (H _ Hin). by rewrite Ascii.eqb_refl in H.
Qed.

Lemma Split_three (f1 f2 f3 : string) :
  "|"%char ∉ bytesOf f1 → "|"%char ∉ bytesOf f2 → "|"%char ∉ bytesOf f3 →
  strings.Split (f1 +:+ "|" +:+ f2 +:+ "|" +:+ f3) "|" = [f1; f2; f3].
Proof.
  intros H1 H2 H3.
  change (f1 +:+ "|" +:+ f2 +:+ "|" +:+ f3)
    with (f1 +:+ String "|" (f2 +:+ String "|" f3)).
  by rewrite !Split_app_sep, Split_no_sep.
Qed.

Lemma parseProgress_three (f1 f2 f3 : string) (percent : float64) :
  "|"%char ∉ bytesOf f1 → "|"%char ∉ bytesOf f2 → "|"%char ∉ bytesOf f3 →
  rawPercentOf f1 ≠ "" →
  strings.EqualFold (rawPercentOf f1) "N/A" = false →
  strconv.ParseFloat (rawPercentOf f1) floatBitSize = (percent, None) →
  parseProgress (f1 +:+ "|" +:+ f2 +:+ "|" +:+ f3) =
  ({| Percent := percent; ETA := strings.TrimSpace f2;
      Speed := strings.TrimSpace f3;
      Raw := f1 +:+ "|" +:+ f2 +:+ "|" +:+ f3 |}, true).
Proof.
  intros H1 H2 H3 Hne Hfold Hparse. unfold parseProgress.
  rewrite Split_three by done. simpl.
  apply String.eqb_neq in Hne. by rewrite Hne, Hfold, Hparse.
Qed.

Lemma parseProgress_true (line : string) (u : ProgressUpdate) :
  parseProgress line = (u, true) →
  Raw u = line
  ∧ length (strings.Split line "|") = 3%nat
  ∧ firstField line ≠ ""
  ∧ strings.EqualFold (firstField line) "N/A" = false
  ∧ strconv.ParseFloat (firstField line) floatBitSize = (Percent u, None)
  ∧ ETA u = strings.TrimSpace (nth 1 (strings.Split line "|") "")
  ∧ Speed u = strings.TrimSpace (nth 2 (strings.Split line "|") "").
Proof.
  unfold parseProgress, firstField.
  destruct (Nat.eqb_spec (length (strings.Split line "|")) progressPartsCount)
    as [Hlen|]; simpl; [|done].
  destruct (String.eqb_spec (rawPercentOf (nth 0 (strings.Split line "|") "")) "")
    as [|Hne]; simpl; [done|].
  destruct (strings.EqualFold _ _) eqn:Hfold; [done|].
  destruct (strconv.ParseFloat _ _) as [percent [e|]] eqn:Hparse; [done|].
  intros [= <-]. simpl. done.
Qed.

Lemma f64_42_5_value : valueOf f64_42_5 = Some (85 # 2)%Q.
Proof. reflexivity. Qed.

Lemma f64_100_value : valueOf f64_100 = Some (100 # 1)%Q.
Proof. reflexivity. Qed.

Lemma f64_150_value : valueOf f64_150 = Some (150 # 1)%Q.
Proof. reflexivity. Qed.

(** C4, as amended. A line made of the fields 42.5%, 00:10 and 1.2MiB/s
    with any ASCII white space before 42.5, between 42.5 and the percent
    sign, and around the two other fields, but none between the percent sign
    and the bar, decodes to percent 42.5, ETA 00:10 and speed 1.2MiB/s: the
    percent sign is stripped from the end of the raw first field, and white
    space is trimmed after that. *)
Theorem progress_line_decodes (w1 w2 w3 w4 w5 w6 : string) :
  isSpaces w1 = true → isSpaces w2 = true → isSpaces w3 = true →
  isSpaces w4 = true → isSpaces w5 = true → isSpaces w6 = true →
  parseProgress
    ((w1 +:+ "42.5" +:+ w2 +:+ "%") +:+ "|" +:+ (w3 +:+ "00:10" +:+ w4)
     +:+ "|" +:+ (w5 +:+ "1.2MiB/s" +:+ w6))
  = ({| Percent := f64_42_5; ETA := "00:10"; Speed := "1.2MiB/s";
        Raw := (w1 +:+ "42.5" +:+ w2 +:+ "%") +:+ "|"
               +:+ (w3 +:+ "00:10" +:+ w4) +:+ "|"
               +:+ (w5 +:+ "1.2MiB/s" +:+ w6) |}, true).
Proof.
  intros H1 H2 H3 H4 H5 H6.
  assert (rawPercentOf (w1 +:+ "42.5" +:+ w2 +:+ "%") = "42.5") as Hraw.
  { unfold rawPercentOf.
    rewrite <- (string_app_assoc "42.5"), <- (string_app_assoc w1).
    rewrite TrimSuffix_app.
    by apply (TrimSpace_padded _ _ _ "4" "5"). }
  rewrite (parseProgress_three _ _ _ f64_42_5).
  - rewrite (TrimSpace_padded _ _ "00:10" "0" "0") by done.
    by rewrite (TrimSpace_padded _ _ "1.2MiB/s" "1" "s").
  - rewrite !bytesOf_app, !not_elem_of_app.
    repeat split; try by apply isSpaces_no_bar.
    all: by apply no_bar_check.
  - rewrite !bytesOf_app, !not_elem_of_app.
    repeat split; try by apply isSpaces_no_bar.
    by apply no_bar_check.
  - rewrite !bytesOf_app, !not_elem_of_app.
    repeat split; try by apply isSpaces_no_bar.
    by apply no_bar_check.
  - by rewrite Hraw.
  - by rewrite Hraw.
  - by rewrite Hraw.
Qed.

Lemma progress_line_decodes_witness :
  parseProgress "  42.5%|  00:10  |  1.2MiB/s  "
  = ({| Percent := f64_42_5; ETA := "00:10"; Speed := "1.2MiB/s";
        Raw := "  42.5%|  00:10  |  1.2MiB/s  " |}, true).
Proof.
  exact (progress_line_decodes "  " "" "  " "  " "  " "  "
           eq_refl eq_refl eq_refl eq_refl eq_refl eq_refl).
Defined.

(** C4 as the spec words it fails: with white space between the percent
    sign and the bar the sign is not stripped, 42.5% is no float, and the
    line is dropped, by [parseProgress] and by the stdout writer. *)
Lemma space_after_percent_sign_is_not_decoded :
  parseProgress "  42.5%  |  00:10  |  1.2MiB/s  "
  = (rawOnly "  42.5%  |  00:10  |  1.2MiB/s  ", false)
  ∧ t_calls (writeAll (writerFunc quietCallback None) newStream []
               [bytesOf "  42.5%  |  00:10  |  1.2MiB/s  " ++ [LF]]) = [].
Proof. split; vm_compute; reflexivity. Qed.

(** C5, as amended. A line that does not split into exactly three fields,
    or whose first field, one trailing percent sign stripped and white space
    trimmed after that, is the empty string or N/A in any case, or is no
    64-bit float, does not decode; and when such a line is completed on the
    stdout writer, no callback is invoked. *)
Theorem undecodable_line_is_dropped (line : string) :
  length (strings.Split line "|") ≠ 3%nat
  ∨ firstField line = ""
  ∨ strings.EqualFold (firstField line) "N/A" = true
  ∨ (strconv.ParseFloat (firstField line) floatBitSize).2 ≠ None →
  parseProgress line = (rawOnly line, false)
  ∧ ∀ (W : Type) (callback : Callback W) (extra : option (Sink W))
      (st : streamState) (w : W) (p : bytes),
      LF ∉ p →
      strings.TrimSpace (str (lineBuf st ++ p ++ [LF])) = line →
      w_calls (Write (writerFunc callback extra) st w (p ++ [LF])) = [].
Proof.
  intros Hbad.
  assert (parseProgress line = (rawOnly line, false)) as Hparse.
  { unfold parseProgress. fold (firstField line).
    destruct (Nat.eqb_spec (length (strings.Split line "|")) progressPartsCount)
      as [Hlen|]; simpl; [|done].
    destruct (String.eqb_spec (firstField line) "") as [|Hne]; simpl; [done|].
    destruct (strings.EqualFold (firstField line) "N/A") eqn:Hfold; [done|].
    destruct (strconv.ParseFloat (firstField line) floatBitSize)
      as [percent [e|]] eqn:Hfloat; [done|].
    exfalso.
    destruct Hbad as [H|[H|[H|H]]];
      first [done | congruence | by rewrite Hfloat in H]. }
  split; [exact Hparse|].
  intros W callback extra st w p Hno Hline. simpl.
  destruct (w_err (progressWrite callback extra st w (p ++ [LF])))
    as [e|] eqn:He.
  - by destruct (progressWrite_failed _ _ _ _ _ _ He).
  - destruct (progressWrite_ok _ _ _ _ _ He) as [_ ->].
    rewrite decodeLines_app, decodeLines_no_LF by done. simpl.
    rewrite <- app_assoc, Hline, Hparse. done.
Qed.

Lemma undecodable_line_is_dropped_witness :
  parseProgress "N/A%|Unknown|Unknown"
  = (rawOnly "N/A%|Unknown|Unknown", false).
Proof.
  refine (proj1 (undecodable_line_is_dropped "N/A%|Unknown|Unknown" _)).
  right. right. left. reflexivity.
Defined.

(** C5 as the spec words it fails: in the line 50 %|a|b the first field,
    trimmed and then stripped of its percent sign, is 50 followed by a
    blank, which is no float; yet the code strips the sign first and trims
    after, reads 50, decodes the line and invokes the callback. *)
Lemma space_before_percent_sign_is_decoded :
  trimmedThenStripped (nth 0 (strings.Split "50 %|a|b" "|") "") = "50 "
  ∧ (strconv.ParseFloat "50 " floatBitSize).2
    = Some (strconv.syntaxError "ParseFloat" "50 ")
  ∧ firstField "50 %|a|b" = "50"
  ∧ (parseProgress "50 %|a|b").2 = true
  ∧ valueOf (Percent (parseProgress "50 %|a|b").1) = Some (50 # 1)%Q
  ∧ t_calls (writeAll (writerFunc quietCallback None) newStream []
               [bytesOf "50 %|a|b" ++ [LF]])
    = [(parseProgress "50 %|a|b").1].
Proof. repeat split; vm_compute; reflexivity. Qed.

(** ** The percent of a delivered update *)

Lemma decodeLines_calls (chunk lineBuf : bytes) (u : ProgressUpdate) :
  u ∈ (decodeLines chunk lineBuf).2 → parseProgress (Raw u) = (u, true).
Proof.
  revert lineBuf. induction chunk as [|b rest IH]; intros lineBuf; simpl.
  { by intros ?%elem_of_nil. }
  destruct (Ascii.eqb b LF); [|apply IH].
  specialize (IH []). destruct (decodeLines rest []) as [pending calls].
  destruct (parseProgress (strings.TrimSpace _)) as [upd [|]] eqn:Hparse;
    simpl in *; [|by apply IH].
  intros [->|Hin]%elem_of_cons; [|by apply IH].
  by destruct (parseProgress_true _ _ Hparse) as [-> _].
Qed.

Lemma writeAll_calls_parsed {W : Type} (wr : writer W) (st : streamState)
    (w : W) (chunks : list bytes) (u : ProgressUpdate) :
  u ∈ t_calls (writeAll wr st w chunks) → parseProgress (Raw u) = (u, true).
Proof.
  revert st w. induction chunks as [|p chunks IH]; intros st w; simpl.
  { by intros ?%elem_of_nil. }
  intros [Hin|Hin]%elem_of_app; [|by eapply IH].
  destruct wr as [|extra|callback extra]; simpl in Hin.
  - by apply elem_of_nil in Hin.
  - unfold multiWrite in Hin.
    destruct (extra w p) as [w' [n [e|]]]; simpl in Hin;
      [by apply elem_of_nil in Hin|].
    destruct (n =? _)%Z; simpl in Hin; [|by apply elem_of_nil in Hin].
    rewrite Z.eqb_refl in Hin. by apply elem_of_nil in Hin.
  - destruct (w_err (progressWrite callback extra st w p)) as [e|] eqn:He.
    + destruct (progressWrite_failed _ _ _ _ _ _ He) as [_ Hc].
      rewrite Hc in Hin. by apply elem_of_nil in Hin.
    + destruct (progressWrite_ok _ _ _ _ _ He) as [_ Hc].
      rewrite Hc in Hin. by eapply decodeLines_calls.
Qed.

(** C7, as amended. The percent of every update delivered to the callback
    is the 64-bit float that [strconv.ParseFloat] returns, with no error, for
    the first field of the update's raw line, the percent sign stripped and
    white space trimmed. The value is taken as it is: it is neither scaled
    nor checked against a range. *)
Theorem delivered_percent_is_the_parsed_field {W : Type} (wr : writer W)
    (st : streamState) (w : W) (chunks : list bytes) (u : ProgressUpdate) :
  u ∈ t_calls (writeAll wr st w chunks) →
  strconv.ParseFloat (firstField (Raw u)) floatBitSize = (Percent u, None).
Proof.
  intros Hin%writeAll_calls_parsed.
  by destruct (parseProgress_true _ _ Hin) as (_ & _ & _ & _ & H & _).
Qed.

Lemma delivered_percent_is_the_parsed_field_witness :
  strconv.ParseFloat
    (firstField (Raw {| Percent := f64_42_5; ETA := "00:10";
                        Speed := "1.2MiB/s";
                        Raw := "42.5%|00:10|1.2MiB/s" |}))
    floatBitSize
  = (f64_42_5, None).
Proof.
  refine (delivered_percent_is_the_parsed_field
            (writerFunc quietCallback None) newStream []
            [bytesOf "42.5%|00:10|1.2MiB/s" ++ [LF]]
            {| Percent := f64_42_5; ETA := "00:10"; Speed := "1.2MiB/s";
               Raw := "42.5%|00:10|1.2MiB/s" |} _).
  vm_compute. apply list_elem_of_here.
Defined.

(** C7 as the spec words it fails: the line 150%|00:10|1.2MiB/s is
    delivered with percent 150, above 100. *)
Lemma percent_above_100_is_delivered :
  t_calls (writeAll (writerFunc quietCallback None) newStream []
             [bytesOf "150%|00:10|1.2MiB/s" ++ [LF]])
  = [{| Percent := f64_150; ETA := "00:10"; Speed := "1.2MiB/s";
        Raw := "150%|00:10|1.2MiB/s" |}]
  ∧ onPercentScale f64_150 = false
  ∧ ¬ (∀ line u, parseProgress line = (u, true) →
                 onPercentScale (Percent u) = true).
Proof.
  split; [vm_compute; reflexivity|]. split; [reflexivity|].
  intros H.
  specialize (H "150%|00:10|1.2MiB/s" _ eq_refl). vm_compute in H.
  discriminate H.
Qed.

(** ** The argument builder *)

Lemma foldl_addHeader (m : gmap string string) (args keys : list string) :
  foldl (addHeader m) args keys =
  args ++ concat (headerFlag m <$>
                    filter (fun k => strings.TrimSpace (m !!! k) ≠ "") keys).
Proof.
  revert args. induction keys as [|k keys IH]; intros args; simpl.
  { by rewrite app_nil_r. }
  rewrite IH. unfold addHeader.
  destruct (String.eqb_spec (strings.TrimSpace (m !!! k)) "") as [Heq|Hne].
  - by rewrite filter_cons_False by (by intros ?).
  - rewrite filter_cons_True by done. simpl. by rewrite <- app_assoc.
Qed.

Lemma sort_Strings_order_irrelevant (order1 order2 : list string) :
  order1 ≡ₚ order2 → sort.Strings order1 = sort.Strings order2.
Proof.
  intros Hperm. unfold sort.Strings.
  apply (Sorted_unique String.le); try apply Sorted_merge_sort; try apply _.
  by rewrite !merge_sort_Permutation.
Qed.

Lemma StronglySorted_filter_le (P : string → Prop) `{∀ k, Decision (P k)}
    (l : list string) :
  StronglySorted String.le l → StronglySorted String.le (filter P l).
Proof.
  induction 1 as [|k l Hl IH Hk]; [constructor|].
  destruct (decide (P k)).
  - rewrite filter_cons_True by done. constructor; [done|].
    apply Forall_forall. intros x [_ Hx]%list_elem_of_filter.
    rewrite Forall_forall in Hk. by apply Hk.
  - by rewrite filter_cons_False.
Qed.

(** C8. The built arguments are: the flags of the other options, then one
    header flag for each pair whose trimmed value is not empty, in
    increasing order of the keys, then the extra arguments as they are, then
    the URL. *)
Theorem buildArgs_headers_extras_url {W : Type} (url : string)
    (opts : Options W) :
  ∃ (front keys : list string),
    buildArgs url (withoutHeaders opts) = front ++ [url]
    ∧ buildArgs url opts =
      front ++ concat (headerFlag (Headers opts) <$> keys)
            ++ ExtraArgs opts ++ [url]
    ∧ StronglySorted String.le keys
    ∧ NoDup keys
    ∧ (∀ k, k ∈ keys ↔
            ∃ v, Headers opts !! k = Some v ∧ strings.TrimSpace v ≠ "")
    ∧ last (buildArgs url opts) = Some url.
Proof.
  set (m := Headers opts).
  set (front :=
    let args := ["--newline"] in
    let args :=
      match Progress opts with
      | Some _ => args ++ ["--progress-template"; progressTemplate]
      | None => args ++ ["--no-progress"]
      end in
    let args :=
      if negb (String.eqb (OutputTemplate opts) "")
      then args ++ ["-o"; OutputTemplate opts] else args in
    let args :=
      if negb (String.eqb (Format opts) "")
      then args ++ ["-f"; Format opts] else args in
    let args :=
      if negb (String.eqb (Proxy opts) "")
      then args ++ ["--proxy"; Proxy opts] else args in
    if negb (String.eqb (CookiesFile opts) "")
    then args ++ ["--cookies"; CookiesFile opts] else args).
  set (keys := filter (fun k => strings.TrimSpace (m !!! k) ≠ "")
                 (sort.Strings (rangeKeys m))).
  assert (buildArgs url opts =
          front ++ concat (headerFlag m <$> keys) ++ ExtraArgs opts ++ [url])
    as Hargs.
  { unfold buildArgs. fold m. fold front.
    destruct (0 <? size m)%nat eqn:Hsize.
    - rewrite foldl_addHeader. fold keys. by rewrite <- !app_assoc.
    - apply Nat.ltb_ge in Hsize.
      assert (m = ∅) as Hm by (apply map_size_empty_iff; lia).
      subst keys. rewrite Hm. unfold rangeKeys. rewrite map_to_list_empty.
      simpl. by rewrite <- !app_assoc. }
  exists front, keys. split; [|split; [exact Hargs|]].
  { unfold buildArgs. simpl. fold front. by rewrite app_nil_r. }
  split; [|split; [|split]].
  - apply StronglySorted_filter_le.
    apply StronglySorted_merge_sort; apply _.
  - apply NoDup_filter. unfold sort.Strings.
    rewrite merge_sort_Permutation. apply NoDup_fst_map_to_list.
  - intros k. unfold keys, sort.Strings.
    rewrite list_elem_of_filter, merge_sort_Permutation.
    unfold rangeKeys. rewrite list_elem_of_fmap. split.
    + intros [Hne [[k' v] [-> Hin%elem_of_map_to_list]]]. simpl in *.
      exists v. split; [done|]. by rewrite (lookup_total_correct _ _ _ Hin) in Hne.
    + intros [v [Hin Hne]]. split.
      * by rewrite (lookup_total_correct _ _ _ Hin).
      * exists (k, v). split; [done|]. by apply elem_of_map_to_list.
  - rewrite Hargs, !app_assoc. apply last_snoc.
Qed.

(** The example of C8: with the headers Z and A, the flag of A comes
    first. *)
Lemma buildArgs_A_before_Z :
  buildArgs "https://example.com/v" zaHeaders =
  ["--newline"; "--no-progress"; "--add-header"; "A:2"; "--add-header"; "Z:1";
   "--verbose"; "https://example.com/v"].
Proof. vm_compute. reflexivity. Qed.

(** ** The run result *)

Section RunFacts.

Context {W : Type}.
Implicit Types (outW errW : writer W) (r : running W).

Lemma copyOutput_stdout_done outW errW evs r :
  r_stdoutDone r = true →
  r_stdout (copyOutput outW errW evs r) = r_stdout r
  ∧ r_stdoutDone (copyOutput outW errW evs r) = true.
Proof.
  revert r. induction evs as [|[[|] p] evs IH]; intros r Hdone; simpl.
  - done.
  - rewrite Hdone. by apply IH.
  - destruct (r_stderrDone r); [by apply IH|].
    match goal with |- context [copyOutput _ _ _ ?r'] =>
      by destruct (IH r') as [-> ->]
    end.
Qed.

Lemma copyOutput_stderr_done outW errW evs r :
  r_stderrDone r = true →
  r_stderr (copyOutput outW errW evs r) = r_stderr r
  ∧ r_stderrDone (copyOutput outW errW evs r) = true.
Proof.
  revert r. induction evs as [|[[|] p] evs IH]; intros r Hdone; simpl.
  - done.
  - destruct (r_stdoutDone r); [by apply IH|].
    match goal with |- context [copyOutput _ _ _ ?r'] =>
      by destruct (IH r') as [-> ->]
    end.
  - rewrite Hdone. by apply IH.
Qed.

Lemma copyOutput_stdout_prefix outW errW evs r :
  ∃ n, buf (r_stdout (copyOutput outW errW evs r)) =
       buf (r_stdout r) ++ concat (take n (chunksOf stdout evs)).
Proof.
  revert r. induction evs as [|[[|] p] evs IH]; intros r; simpl.
  - exists 0%nat. by rewrite app_nil_r.
  - destruct (r_stdoutDone r) eqn:Hdone.
    + exists 0%nat.
      destruct (copyOutput_stdout_done outW errW evs r Hdone) as [-> _].
      by rewrite app_nil_r.
    + destruct (w_err (Write outW (r_stdout r) (r_world r) p)) as [e|] eqn:He.
      * exists 0%nat. simpl.
        match goal with |- context [copyOutput _ _ _ ?r'] =>
          destruct (copyOutput_stdout_done outW errW evs r') as [-> _]
        end; [done|]. simpl.
        by rewrite Write_buf, He, app_nil_r.
      * match goal with |- context [copyOutput _ _ _ ?r'] =>
          destruct (IH r') as [n Hn]
        end.
        exists (S n). rewrite Hn. simpl.
        rewrite Write_buf, He. simpl. by rewrite <- app_assoc.
  - destruct (r_stderrDone r); [apply IH|].
    match goal with |- context [copyOutput _ _ _ ?r'] =>
      destruct (IH r') as [n Hn]
    end.
    by exists n.
Qed.

Lemma copyOutput_stderr_prefix outW errW evs r :
  ∃ n, buf (r_stderr (copyOutput outW errW evs r)) =
       buf (r_stderr r) ++ concat (take n (chunksOf stderr evs)).
Proof.
  revert r. induction evs as [|[[|] p] evs IH]; intros r; simpl.
  - exists 0%nat. by rewrite app_nil_r.
  - destruct (r_stdoutDone r); [apply IH|].
    match goal with |- context [copyOutput _ _ _ ?r'] =>
      destruct (IH r') as [n Hn]
    end.
    by exists n.
  - destruct (r_stderrDone r) eqn:Hdone.
    + exists 0%nat.
      destruct (copyOutput_stderr_done outW errW evs r Hdone) as [-> _].
      by rewrite app_nil_r.
    + destruct (w_err (Write errW (r_stderr r) (r_world r) p)) as [e|] eqn:He.
      * exists 0%nat. simpl.
        match goal with |- context [copyOutput _ _ _ ?r'] =>
          destruct (copyOutput_stderr_done outW errW evs r') as [-> _]
        end; [done|]. simpl.
        by rewrite Write_buf, He, app_nil_r.
      * match goal with |- context [copyOutput _ _ _ ?r'] =>
          destruct (IH r') as [n Hn]
        end.
        exists (S n). rewrite Hn. simpl.
        rewrite Write_buf, He. simpl. by rewrite <- app_assoc.
Qed.

Lemma copyOutput_stdout_all outW errW evs r :
  sinkOf outW = None → r_stdoutDone r = false →
  buf (r_stdout (copyOutput outW errW evs r)) =
  buf (r_stdout r) ++ concat (chunksOf stdout evs).
Proof.
  intros Hno. revert r.
  induction evs as [|[[|] p] evs IH]; intros r Hdone; simpl.
  - by rewrite app_nil_r.
  - rewrite Hdone, IH; simpl.
    + rewrite Write_buf, Write_no_sink by done. simpl.
      by rewrite <- app_assoc.
    + by rewrite Write_no_sink.
  - destruct (r_stderrDone r); [by apply IH|]. by rewrite IH.
Qed.

Lemma copyOutput_stderr_all outW errW evs r :
  sinkOf errW = None → r_stderrDone r = false →
  buf (r_stderr (copyOutput outW errW evs r)) =
  buf (r_stderr r) ++ concat (chunksOf stderr evs).
Proof.
  intros Hno. revert r.
  induction evs as [|[[|] p] evs IH]; intros r Hdone; simpl.
  - by rewrite app_nil_r.
  - destruct (r_stdoutDone r); [by apply IH|]. by rewrite IH.
  - rewrite Hdone, IH; simpl.
    + rewrite Write_buf, Write_no_sink by done. simpl.
      by rewrite <- app_assoc.
    + by rewrite Write_no_sink.
Qed.

Lemma progressWriter_state (callback : option (Callback W))
    (extra : option (Sink W)) :
  (progressWriter callback extra).2 = newStream.
Proof. by destruct callback, extra. Qed.

Lemma teeWriter_state (extra : option (Sink W)) :
  (teeWriter extra).2 = newStream.
Proof. by destruct extra. Qed.

Lemma progressWriter_sink (callback : option (Callback W))
    (extra : option (Sink W)) :
  sinkOf (progressWriter callback extra).1 = extra.
Proof. by destruct callback, extra. Qed.

Lemma teeWriter_sink (extra : option (Sink W)) :
  sinkOf (teeWriter extra).1 = extra.
Proof. by destruct extra. Qed.

Lemma Download_runs (d : Downloader) (env : environment) (url : string)
    (opts : Options W) (w : W) :
  url ≠ "" → binPath d ≠ "" →
  let p := childOf d env url opts in
  let r := captured opts p w in
  let result :=
    {| Result_Stdout := buf (r_stdout r); Result_Stderr := buf (r_stderr r) |} in
  Download d env url opts w =
  {| d_result := Some result;
     d_err :=
       match exitErr p, r_copyErr r, ctxErr env with
       | None, None, _ => None
       | _, _, Some c => Some (wrapError "context done: " c "")
       | Some e, _, None | None, Some e, None =>
         Some (wrapError "yt-dlp failed: " e
                 (String LF (str (strings.trimSpace (buf (r_stderr r))))))
       end;
     d_world := r_world r; d_calls := r_calls r |}.
Proof.
  intros Hurl%String.eqb_neq Hbin%String.eqb_neq p r result.
  unfold Download. rewrite Hurl, Hbin.
  subst result r p. unfold captured, childOf.
  pose proof (progressWriter_state (Progress opts) (Stdout opts)) as Ho.
  pose proof (teeWriter_state (Stderr opts)) as He.
  destruct (progressWriter _ _) as [ow os], (teeWriter _) as [ew es].
  simpl in *. subst os es. unfold Run.
  destruct (exitErr _) as [e|]; [by destruct (ctxErr env)|].
  destruct (r_copyErr _) as [e|]; [by destruct (ctxErr env)|done].
Qed.

End RunFacts.

(** C9. With a URL and a binary path, when the child fails (it does not
    start, or exits with an error) [Download] returns an error together with
    a result, not [nil]: the result holds the two buffers as [cmd.Run] left
    them. Each buffer is the concatenation of the chunks of its stream that
    were written before a write failed; it is every chunk of the stream when
    no sink is configured for it. *)
Theorem failed_run_returns_captured_output {W : Type} (d : Downloader)
    (env : environment) (url : string) (opts : Options W) (w : W) (e : error) :
  url ≠ "" → binPath d ≠ "" →
  exitErr (childOf d env url opts) = Some e →
  d_result (Download d env url opts w) =
    Some {| Result_Stdout :=
              buf (r_stdout (captured opts (childOf d env url opts) w));
            Result_Stderr :=
              buf (r_stderr (captured opts (childOf d env url opts) w)) |}
  ∧ d_err (Download d env url opts w) =
    Some (match ctxErr env with
          | Some c => wrapError "context done: " c ""
          | None =>
            wrapError "yt-dlp failed: " e
              (String LF
                 (str (strings.trimSpace
                         (buf (r_stderr
                                 (captured opts (childOf d env url opts) w))))))
          end)
  ∧ (∃ n, buf (r_stdout (captured opts (childOf d env url opts) w)) =
          concat (take n (chunksOf stdout (output (childOf d env url opts)))))
  ∧ (∃ n, buf (r_stderr (captured opts (childOf d env url opts) w)) =
          concat (take n (chunksOf stderr (output (childOf d env url opts)))))
  ∧ (Stdout opts = None →
     buf (r_stdout (captured opts (childOf d env url opts) w)) =
     concat (chunksOf stdout (output (childOf d env url opts))))
  ∧ (Stderr opts = None →
     buf (r_stderr (captured opts (childOf d env url opts) w)) =
     concat (chunksOf stderr (output (childOf d env url opts)))).
Proof.
  intros Hurl Hbin Hexit.
  rewrite (Download_runs d env url opts w Hurl Hbin). simpl. rewrite Hexit.
  split; [done|]. split; [by destruct (ctxErr env)|].
  unfold captured, Run. simpl.
  split; [apply copyOutput_stdout_prefix|].
  split; [apply copyOutput_stderr_prefix|].
  split; intros Hno.
  - rewrite copyOutput_stdout_all; [done| |done].
    by rewrite progressWriter_sink.
  - rewrite copyOutput_stderr_all; [done| |done].
    by rewrite teeWriter_sink.
Qed.

Lemma failed_run_returns_captured_output_witness :
  d_result (Download {| binPath := "/usr/bin/yt-dlp" |} failingChild
              "https://example.com/v" noOptions [])
  = Some {| Result_Stdout := bytesOf "partial";
            Result_Stderr := bytesOf "boom" |}.
Proof.
  destruct (failed_run_returns_captured_output
              {| binPath := "/usr/bin/yt-dlp" |} failingChild
              "https://example.com/v" noOptions []
              (errorString "exit status 1"))
    as (H & _); [discriminate|discriminate|reflexivity|].
  exact H.
Defined.

(** C10. With an empty URL, or with a downloader whose binary path is
    empty, [Download] returns a [nil] result and the configuration error (the
    URL is checked first); no child runs, so the caller's world is as before
    and no callback is invoked. *)
Theorem configuration_error_returns_no_result {W : Type} (d : Downloader)
    (env : environment) (url : string) (opts : Options W) (w : W) :
  url = "" ∨ binPath d = "" →
  Download d env url opts w =
  {| d_result := None;
     d_err := Some (if String.eqb url "" then errURLRequired
                    else errBinaryNotConfigured);
     d_world := w; d_calls := [] |}.
Proof.
  intros Hcfg. unfold Download.
  destruct (String.eqb_spec url "") as [|Hurl]; [done|].
  destruct (String.eqb_spec (binPath d) "") as [|Hbin]; [done|].
  by destruct Hcfg.
Qed.

Lemma configuration_error_returns_no_result_witness :
  Download {| binPath := "" |} failingChild "https://example.com/v"
    noOptions []
  = {| d_result := None; d_err := Some errBinaryNotConfigured;
       d_world := []; d_calls := [] |}.
Proof.
  exact (configuration_error_returns_no_result {| binPath := "" |}
           failingChild "https://example.com/v" noOptions []
           (or_intror eq_refl)).
Defined.

(** ** Callbacks over a whole run *)

Section CallFacts.

Context {W : Type}.

Lemma teeWriter_calls (extra : option (Sink W)) (st : streamState) (w : W)
    (p : bytes) :
  w_calls (Write (teeWriter extra).1 st w p) = [].
Proof.
  destruct extra as [extra|]; simpl; [|done].
  unfold multiWrite. destruct (extra w p) as [w' [n [e|]]]; simpl; [done|].
  destruct (n =? _)%Z; simpl; [|done]. by rewrite Z.eqb_refl.
Qed.

Lemma copyOutput_calls (callback : Callback W) (errW : writer W)
    (evs : list (stream * bytes)) (r : running W) :
  (∀ st w p, w_calls (Write errW st w p) = []) →
  r_stdoutDone r = false →
  r_calls (copyOutput (writerFunc callback None) errW evs r) =
  r_calls r
  ++ (decodeLines (concat (chunksOf stdout evs)) (lineBuf (r_stdout r))).2.
Proof.
  intros Herr. revert r.
  induction evs as [|[[|] p] evs IH]; intros r Hdone; simpl.
  - by rewrite app_nil_r.
  - rewrite Hdone.
    assert (w_err (progressWrite callback None (r_stdout r) (r_world r) p)
            = None) as Hok.
    { by apply (Write_no_sink (writerFunc callback None)). }
    destruct (progressWrite_ok _ _ _ _ _ Hok) as [Hl Hc].
    rewrite IH; simpl; [|by rewrite Hok].
    rewrite Hl, Hc, decodeLines_app.
    destruct (decodeLines p (lineBuf (r_stdout r))) as [pa ca]; simpl.
    destruct (decodeLines (concat (chunksOf stdout evs)) pa); simpl.
    by rewrite app_assoc.
  - destruct (r_stderrDone r); [by apply IH|].
    rewrite IH by done. simpl. by rewrite Herr, app_nil_r.
Qed.

Lemma Download_calls (d : Downloader) (env : environment) (url : string)
    (opts : Options W) (w : W) (callback : Callback W) :
  url ≠ "" → binPath d ≠ "" →
  Progress opts = Some callback → Stdout opts = None →
  d_calls (Download d env url opts w) =
  (decodeLines (concat (chunksOf stdout (output (childOf d env url opts))))
     []).2.
Proof.
  intros Hurl Hbin Hcb Hout.
  rewrite (Download_runs d env url opts w Hurl Hbin). simpl.
  unfold captured, Run. simpl. rewrite Hcb, Hout. simpl.
  rewrite copyOutput_calls; [done| |done].
  apply teeWriter_calls.
Qed.

(** The run as a whole never delivers an unterminated tail: a child whose
    stdout ends with bytes that no line feed follows causes the callback
    invocations of the child that stops before them. Nothing flushes the
    pending line when the child ends. *)
Lemma Download_drops_unterminated_tail (d : Downloader)
    (env env' : environment) (url : string) (opts : Options W) (w w' : W)
    (callback : Callback W) (tail : bytes) :
  url ≠ "" → binPath d ≠ "" →
  Progress opts = Some callback → Stdout opts = None →
  LF ∉ tail →
  concat (chunksOf stdout (output (childOf d env' url opts))) =
  concat (chunksOf stdout (output (childOf d env url opts))) ++ tail →
  d_calls (Download d env' url opts w') = d_calls (Download d env url opts w).
Proof.
  intros Hurl Hbin Hcb Hout Hno Heq.
  rewrite !(Download_calls _ _ _ _ _ callback) by done.
  rewrite Heq, decodeLines_app.
  destruct (decodeLines _ []) as [pa ca].
  rewrite decodeLines_no_LF by done. simpl. by rewrite app_nil_r.
Qed.

End CallFacts.

(** [New] never yields a downloader without a binary path. *)
Lemma New_binPath (env : environment) (binaryPath : string) (d : Downloader) :
  New env binaryPath = (Some d, None) → binPath d = binaryPath ∧ binaryPath ≠ "".
Proof.
  unfold New. destruct (String.eqb_spec binaryPath "") as [|Hne]; [done|].
  destruct (stat env binaryPath); [done|]. by intros [= <-].
Qed.

(** * Further properties of the writers *)

Section WriterFacts.

Context {W : Type}.

Lemma feedLine_world (callback : Callback W) chunk lineBuf w calls :
  (feedLine callback chunk lineBuf w calls).1.2 =
  deliver callback w (decodeLines chunk lineBuf).2.
Proof.
  revert lineBuf w calls.
  induction chunk as [|b rest IH]; intros lineBuf w calls; simpl; [done|].
  destruct (Ascii.eqb b LF); [|apply IH].
  destruct (parseProgress _) as [upd [|]].
  - rewrite IH. by destruct (decodeLines rest []).
  - rewrite IH. by destruct (decodeLines rest []).
Qed.

Lemma decodeLines_pending_no_LF (chunk lineBuf : bytes) :
  LF ∉ lineBuf → LF ∉ (decodeLines chunk lineBuf).1.
Proof.
  revert lineBuf. induction chunk as [|b rest IH]; intros lineBuf Hno; simpl.
  { done. }
  destruct (Ascii.eqb_spec b LF) as [->|Hb].
  - specialize (IH [] (not_elem_of_nil _)).
    destruct (decodeLines rest []) as [pending calls].
    by destruct (parseProgress _) as [upd [|]].
  - apply IH. rewrite not_elem_of_app, not_elem_of_cons. split; [done|].
    split; [congruence|apply not_elem_of_nil].
Qed.

Lemma decodeLines_count (chunk lineBuf : bytes) :
  (length (decodeLines chunk lineBuf).2 ≤ length (filter (eq LF) chunk))%nat.
Proof.
  unfold bytes in *.
  revert lineBuf. induction chunk as [|b rest IH]; intros lineBuf.
  { done. }
  cbn [decodeLines].
  destruct (Ascii.eqb_spec b LF) as [->|Hb].
  - rewrite filter_cons_True by done. specialize (IH []).
    destruct (decodeLines rest []) as [pending calls].
    destruct (parseProgress _) as [upd [|]]; simpl in *; lia.
  - rewrite filter_cons_False by congruence. apply IH.
Qed.

Lemma decodeLines_tail (chunk lineBuf : bytes) :
  ∃ done, lineBuf ++ chunk = done ++ (decodeLines chunk lineBuf).1
          ∧ (done = [] ∨ last done = Some LF)
          ∧ (done = [] → (decodeLines chunk lineBuf).2 = []).
Proof.
  revert lineBuf. induction chunk as [|b rest IH]; intros lineBuf; simpl.
  { exists []. by rewrite app_nil_r; auto. }
  destruct (Ascii.eqb_spec b LF) as [->|Hb].
  - destruct (IH []) as (done & Heq & Hlast & _). simpl in Heq.
    destruct (decodeLines rest []) as [pending calls]. simpl in *.
    exists (lineBuf ++ LF :: done).
    assert ((let (upd, b0) :=
               parseProgress (strings.TrimSpace (str (lineBuf ++ [LF]))) in
             if b0 then (pending, upd :: calls) else (pending, calls)).1
            = pending) as -> by (by destruct (parseProgress _) as [? [|]]).
    split; [by rewrite Heq, <- app_assoc|]. split.
    + right. destruct Hlast as [->|Hlast].
      * by rewrite last_snoc.
      * change (LF :: done) with ([LF] ++ done).
        by rewrite app_assoc, last_app, Hlast.
    + intros Hnil. destruct lineBuf; discriminate Hnil.
  - destruct (IH (lineBuf ++ [b])) as (done & Heq & Hlast & Hnil).
    exists done. by rewrite <- app_assoc in Heq.
Qed.

Lemma decodeLines_line (l rest : bytes) :
  LF ∉ l →
  decodeLines (l ++ LF :: rest) [] =
  ((decodeLines rest []).1,
   match decodeLine l with
   | Some upd => upd :: (decodeLines rest []).2
   | None => (decodeLines rest []).2
   end).
Proof.
  intros Hno. rewrite decodeLines_app, decodeLines_no_LF by done.
  cbn [decodeLines app]. rewrite Ascii.eqb_refl. unfold decodeLine.
  destruct (decodeLines rest []) as [pending calls].
  by destruct (parseProgress _) as [upd [|]].
Qed.

Lemma decodeLines_lines (lines : list bytes) :
  Forall (fun l => LF ∉ l) lines →
  decodeLines (concat ((fun l => l ++ [LF]) <$> lines)) [] =
  ([], omap decodeLine lines).
Proof.
  induction 1 as [|l lines Hl _ IH]; [done|].
  rewrite fmap_cons. cbn [concat]. rewrite <- app_assoc. cbn [app].
  rewrite decodeLines_line, IH by done. cbn [omap list_omap fst snd].
  by destruct (decodeLine l).
Qed.

End WriterFacts.

(** X1. A [Write] on any writer of the package is all or nothing. When it
    returns no error it reports the whole chunk as written and the buffer
    has grown by exactly the chunk; when it returns an error the buffer and
    the pending line are as before and no callback ran. *)
Theorem Write_all_or_nothing {W : Type} (wr : writer W) (st : streamState)
    (w : W) (p : bytes) :
  (w_err (Write wr st w p) = None →
   w_n (Write wr st w p) = Z.of_nat (length p)
   ∧ buf (w_state (Write wr st w p)) = buf st ++ p)
  ∧ (w_err (Write wr st w p) ≠ None →
     w_state (Write wr st w p) = st ∧ w_calls (Write wr st w p) = []).
Proof.
  destruct wr as [|extra|callback extra]; simpl.
  - unfold bufferWrite; simpl. by split.
  - unfold multiWrite. destruct (extra w p) as [w' [n [e|]]]; simpl.
    { by split. }
    destruct (Z.eqb_spec n (Z.of_nat (length p))) as [->|Hn]; simpl.
    + rewrite Z.eqb_refl. simpl. by split.
    + by split.
  - unfold progressWrite.
    destruct extra as [extra|]; simpl.
    + destruct (extra w p) as [w' [n [e|]]]; simpl; [by split|].
      destruct (feedLine _ _ _ _ _) as [[? ?] ?]; simpl. by split.
    + destruct (feedLine _ _ _ _ _) as [[? ?] ?]; simpl. by split.
Qed.

(** X2. On the tee path a sink that reports fewer bytes than the chunk
    holds, with no error, fails the write with [io.ErrShortWrite], and the
    chunk is not accumulated. *)
Theorem tee_rejects_short_write {W : Type} (extra : Sink W)
    (st : streamState) (w w' : W) (p : bytes) (n : Z) :
  extra w p = (w', (n, None)) → n ≠ Z.of_nat (length p) →
  w_err (Write (teeWriter (Some extra)).1 st w p) = Some io.ErrShortWrite
  ∧ w_n (Write (teeWriter (Some extra)).1 st w p) = n
  ∧ w_state (Write (teeWriter (Some extra)).1 st w p) = st.
Proof.
  intros Hsink Hn. simpl. unfold multiWrite. rewrite Hsink.
  by destruct (Z.eqb_spec n (Z.of_nat (length p))).
Qed.

Lemma tee_rejects_short_write_witness :
  w_err (Write (teeWriter (Some shortSink)).1 newStream []
           (bytesOf "two lines"))
  = Some io.ErrShortWrite.
Proof.
  refine (proj1 (tee_rejects_short_write shortSink newStream [] (bytesOf "t")
                   (bytesOf "two lines") 1 _ _)).
  - reflexivity.
  - vm_compute. discriminate.
Defined.

(** X3. The closure of [progressWriter] drops the byte count of the sink:
    when the sink returns no error, whatever count it reports, the write
    succeeds with the full length, the chunk is accumulated and its bytes
    reach the line decoder. *)
Theorem progress_ignores_short_write {W : Type} (callback : Callback W)
    (extra : Sink W) (st : streamState) (w w' : W) (p : bytes) (n : Z) :
  extra w p = (w', (n, None)) →
  w_err (Write (writerFunc callback (Some extra)) st w p) = None
  ∧ w_n (Write (writerFunc callback (Some extra)) st w p)
    = Z.of_nat (length p)
  ∧ buf (w_state (Write (writerFunc callback (Some extra)) st w p))
    = buf st ++ p
  ∧ lineBuf (w_state (Write (writerFunc callback (Some extra)) st w p))
    = (decodeLines p (lineBuf st)).1
  ∧ w_calls (Write (writerFunc callback (Some extra)) st w p)
    = (decodeLines p (lineBuf st)).2.
Proof.
  intros Hsink.
  assert (w_err (progressWrite callback (Some extra) st w p) = None) as Hok.
  { unfold progressWrite. rewrite Hsink. simpl.
    by destruct (feedLine _ _ _ _ _) as [[? ?] ?]. }
  destruct (progressWrite_ok _ _ _ _ _ Hok) as [Hl Hc].
  simpl. rewrite Hok, Hl, Hc. repeat split.
  - unfold progressWrite. rewrite Hsink. simpl.
    by destruct (feedLine _ _ _ _ _) as [[? ?] ?].
  - pose proof (Write_buf (writerFunc callback (Some extra)) st w p) as Hb.
    simpl in Hb. by rewrite Hb, Hok.
Qed.

Lemma progress_ignores_short_write_witness :
  buf (w_state (Write (writerFunc quietCallback (Some shortSink)) newStream []
                  (bytesOf "two lines")))
  = bytesOf "two lines".
Proof.
  destruct (progress_ignores_short_write quietCallback shortSink newStream []
              (bytesOf "t") (bytesOf "two lines") 1 eq_refl)
    as (_ & _ & H & _).
  exact H.
Defined.

(** X4. Within one write of the closure the sink sees the chunk first; the
    callback is then applied to the delivered updates one after the other,
    in the order in which they are recorded, and to nothing else. *)
Theorem callbacks_run_in_order_after_sink {W : Type} (callback : Callback W)
    (extra : option (Sink W)) (st : streamState) (w : W) (p : bytes) :
  w_world (Write (writerFunc callback extra) st w p) =
  deliver callback
    (match extra with Some extra => (extra w p).1 | None => w end)
    (w_calls (Write (writerFunc callback extra) st w p)).
Proof.
  simpl. unfold progressWrite.
  destruct extra as [extra|]; simpl.
  - destruct (extra w p) as [w' [n [e|]]]; simpl; [done|].
    pose proof (feedLine_world callback p (lineBuf st) w' []) as Hw.
    pose proof (feedLine_decodeLines callback p (lineBuf st) w' []) as Hc.
    destruct (feedLine _ _ _ _ _) as [[? ?] ?]; simpl in *.
    destruct Hc as [_ ->]. by rewrite Hw.
  - pose proof (feedLine_world callback p (lineBuf st) w []) as Hw.
    pose proof (feedLine_decodeLines callback p (lineBuf st) w []) as Hc.
    destruct (feedLine _ _ _ _ _) as [[? ?] ?]; simpl in *.
    destruct Hc as [_ ->]. by rewrite Hw.
Qed.

(** X5. Lines without line feed, each written with its line feed, in any
    segmentation and with every write succeeding, cause one callback
    invocation for each line that decodes, in the order of the lines, and
    leave no pending bytes. *)
Theorem one_callback_per_decoded_line {W : Type} (callback : Callback W)
    (extra : option (Sink W)) (w : W) (lines chunks : list bytes) :
  Forall (fun l => LF ∉ l) lines →
  concat chunks = concat ((fun l => l ++ [LF]) <$> lines) →
  Forall (eq None)
    (t_errs (writeAll (writerFunc callback extra) newStream w chunks)) →
  t_calls (writeAll (writerFunc callback extra) newStream w chunks)
  = omap decodeLine lines
  ∧ lineBuf (t_state (writeAll (writerFunc callback extra) newStream w chunks))
    = [].
Proof.
  intros Hlines Heq Hok.
  destruct (writeAll_calls _ _ _ _ _ Hok) as [Hl Hc].
  rewrite Hl, Hc, Heq. simpl. by rewrite decodeLines_lines.
Qed.

Lemma one_callback_per_decoded_line_witness :
  t_calls (writeAll (writerFunc quietCallback None) newStream []
             [bytesOf "10%|a|b" ++ [LF] ++ bytesOf "log"; LF :: bytesOf "20%|c";
              bytesOf "|d" ++ [LF]])
  = omap decodeLine [bytesOf "10%|a|b"; bytesOf "log"; bytesOf "20%|c|d"].
Proof.
  refine (proj1 (one_callback_per_decoded_line quietCallback None []
                   [bytesOf "10%|a|b"; bytesOf "log"; bytesOf "20%|c|d"]
                   [bytesOf "10%|a|b" ++ [LF] ++ bytesOf "log";
                    LF :: bytesOf "20%|c"; bytesOf "|d" ++ [LF]] _ _ _)).
  - repeat constructor; vm_compute; intros H;
      repeat (apply elem_of_cons in H as [H|H]; [discriminate H|]);
      by apply elem_of_nil in H.
  - reflexivity.
  - vm_compute. repeat constructor.
Defined.

(** X6. The pending line is the unterminated tail of the stream: after
    chunks written with success to a fresh closure, the stream is some bytes
    that are empty or end with a line feed, followed by the pending bytes,
    which hold no line feed. *)
Theorem pending_is_the_unterminated_tail {W : Type} (callback : Callback W)
    (extra : option (Sink W)) (w : W) (chunks : list bytes) :
  Forall (eq None)
    (t_errs (writeAll (writerFunc callback extra) newStream w chunks)) →
  ∃ done,
    concat chunks =
    done ++ lineBuf (t_state (writeAll (writerFunc callback extra)
                                newStream w chunks))
    ∧ (done = [] ∨ last done = Some LF)
    ∧ LF ∉ lineBuf (t_state (writeAll (writerFunc callback extra)
                               newStream w chunks)).
Proof.
  intros Hok. destruct (writeAll_calls _ _ _ _ _ Hok) as [Hl _].
  rewrite Hl. simpl.
  destruct (decodeLines_tail (concat chunks) []) as (done & Heq & Hlast & _).
  exists done. split; [exact Heq|]. split; [exact Hlast|].
  apply decodeLines_pending_no_LF, not_elem_of_nil.
Qed.

Lemma pending_is_the_unterminated_tail_witness :
  ∃ done,
    concat [bytesOf "10%|a|b" ++ [LF] ++ bytesOf "20%"; bytesOf "|c"] =
    done ++ lineBuf (t_state (writeAll (writerFunc quietCallback None)
                                newStream []
                                [bytesOf "10%|a|b" ++ [LF] ++ bytesOf "20%";
                                 bytesOf "|c"]))
    ∧ (done = [] ∨ last done = Some LF)
    ∧ LF ∉ lineBuf (t_state (writeAll (writerFunc quietCallback None)
                               newStream []
                               [bytesOf "10%|a|b" ++ [LF] ++ bytesOf "20%";
                                bytesOf "|c"])).
Proof.
  apply (pending_is_the_unterminated_tail quietCallback None []).
  vm_compute. repeat constructor.
Defined.

(** X7. However the chunks are cut and whichever writes fail, the callback
    is invoked at most once for each line feed written: never more updates
    than lines. *)
Theorem no_more_callbacks_than_line_feeds {W : Type} (wr : writer W)
    (st : streamState) (w : W) (chunks : list (list ascii)) :
  (length (t_calls (writeAll wr st w chunks))
   ≤ length (filter (eq LF) (concat chunks)))%nat.
Proof.
  revert st w. induction chunks as [|p chunks IH]; intros st w.
  { simpl. lia. }
  cbn [writeAll t_calls concat]. rewrite length_app, filter_app, length_app.
  specialize (IH (w_state (Write wr st w p)) (w_world (Write wr st w p))).
  assert (length (w_calls (Write wr st w p)) ≤ length (filter (eq LF) p))%nat;
    [|lia].
  destruct wr as [|extra|callback extra].
  - simpl. lia.
  - rewrite (teeWriter_calls (Some extra)). simpl. lia.
  - simpl.
    destruct (w_err (progressWrite callback extra st w p)) as [e|] eqn:He.
    + destruct (progressWrite_failed _ _ _ _ _ _ He) as [_ ->]. simpl. lia.
    + destruct (progressWrite_ok _ _ _ _ _ He) as [_ ->].
      apply decodeLines_count.
Qed.

(** * Further properties of the decoder *)

Lemma Split_length (s : string) (sep : ascii) :
  length (strings.Split s sep)
  = S (length (filter (eq sep) (list_ascii_of_string s))).
Proof.
  induction s as [|c s IH]; [done|].
  cbn [strings.Split list_ascii_of_string].
  destruct (Ascii.eqb_spec c sep) as [->|Hc].
  - rewrite filter_cons_True by done. simpl. by rewrite IH.
  - rewrite filter_cons_False by congruence.
    destruct (strings.Split s sep) as [|p ps]; [done|]. exact IH.
Qed.

(** X9. A line that decodes holds exactly two bars: a bar inside the ETA
    or the speed text makes the line undecodable. *)
Theorem decoded_line_has_two_bars (line : string) (upd : ProgressUpdate) :
  parseProgress line = (upd, true) →
  length (filter (eq "|"%char) (list_ascii_of_string line)) = 2%nat.
Proof.
  intros Hparse.
  destruct (parseProgress_true _ _ Hparse) as (_ & Hlen & _).
  rewrite Split_length in Hlen. by injection Hlen.
Qed.

Lemma decoded_line_has_two_bars_witness :
  length (filter (eq "|"%char) (list_ascii_of_string "42.5%|00:10|1.2MiB/s"))
  = 2%nat.
Proof.
  refine (decoded_line_has_two_bars "42.5%|00:10|1.2MiB/s"
            {| Percent := f64_42_5; ETA := "00:10"; Speed := "1.2MiB/s";
               Raw := "42.5%|00:10|1.2MiB/s" |} _).
  vm_compute. reflexivity.
Defined.

(** X10. The percent sign is optional: a first field that does not end
    with a percent sign decodes to the same result, and the same percent,
    ETA and speed, whether or not one percent sign is appended to it. *)
Theorem percent_sign_is_optional (f1 rest : string) :
  "|"%char ∉ bytesOf f1 →
  strings.TrimSuffix f1 "%" = f1 →
  (parseProgress ((f1 +:+ "%") +:+ "|" +:+ rest)).2
  = (parseProgress (f1 +:+ "|" +:+ rest)).2
  ∧ Percent (parseProgress ((f1 +:+ "%") +:+ "|" +:+ rest)).1
    = Percent (parseProgress (f1 +:+ "|" +:+ rest)).1
  ∧ ETA (parseProgress ((f1 +:+ "%") +:+ "|" +:+ rest)).1
    = ETA (parseProgress (f1 +:+ "|" +:+ rest)).1
  ∧ Speed (parseProgress ((f1 +:+ "%") +:+ "|" +:+ rest)).1
    = Speed (parseProgress (f1 +:+ "|" +:+ rest)).1.
Proof.
  intros Hbar Hsuffix.
  assert ("|"%char ∉ bytesOf (f1 +:+ "%")) as Hbar'.
  { rewrite bytesOf_app, not_elem_of_app. split; [done|].
    by apply no_bar_check. }
  unfold parseProgress.
  change ((f1 +:+ "%") +:+ "|" +:+ rest)
    with ((f1 +:+ "%") +:+ String "|" rest).
  change (f1 +:+ "|" +:+ rest) with (f1 +:+ String "|" rest).
  rewrite !Split_app_sep by done. cbn [length nth].
  unfold rawPercentOf. rewrite TrimSuffix_app, Hsuffix.
  destruct (negb _); [done|].
  destruct (String.eqb _ "" || _); [done|].
  by destruct (strconv.ParseFloat _ _) as [percent [e|]].
Qed.

Lemma percent_sign_is_optional_witness :
  Percent (parseProgress ((" 42.5" +:+ "%") +:+ "|" +:+ "00:10|1.2MiB/s")).1
  = Percent (parseProgress (" 42.5" +:+ "|" +:+ "00:10|1.2MiB/s")).1.
Proof.
  destruct (percent_sign_is_optional " 42.5" "00:10|1.2MiB/s")
    as (_ & H & _).
  - by apply no_bar_check.
  - reflexivity.
  - exact H.
Defined.

(** * Further properties of the argument builder *)

(** X11. The built arguments do not depend on the order in which the map
    of headers is iterated: for every order that yields each key once, the
    result is the same. *)
Theorem buildArgs_ignores_iteration_order {W : Type} (order : list string)
    (url : string) (opts : Options W) :
  NoDup order →
  (∀ k, k ∈ order ↔ is_Some (Headers opts !! k)) →
  buildArgsIn order url opts = buildArgs url opts.
Proof.
  intros Hnodup Hkeys. unfold buildArgsIn, buildArgs.
  rewrite (sort_Strings_order_irrelevant order (rangeKeys (Headers opts)));
    [done|].
  apply NoDup_Permutation; [done|apply NoDup_fst_map_to_list|].
  intros k. rewrite Hkeys. unfold rangeKeys. rewrite list_elem_of_fmap.
  split.
  - intros [v Hv]. exists (k, v). split; [done|]. by apply elem_of_map_to_list.
  - intros [[k' v] [-> Hin%elem_of_map_to_list]]. by exists v.
Qed.

Lemma buildArgs_ignores_iteration_order_witness :
  buildArgsIn ["Z"; "A"] "https://example.com/v" zaHeaders
  = buildArgs "https://example.com/v" zaHeaders.
Proof.
  apply buildArgs_ignores_iteration_order.
  - apply NoDup_cons. split; [|apply NoDup_singleton].
    intros [=]%list_elem_of_singleton.
  - intros k. simpl. split.
    + intros [->|[->|[]%elem_of_nil]%elem_of_cons]%elem_of_cons.
      * by exists "1".
      * by exists "2".
    + intros [v Hv].
      destruct (decide (k = "Z")) as [->|Hz]; [by left|].
      destruct (decide (k = "A")) as [->|Ha]; [by right; left|].
      by rewrite lookup_insert_ne, lookup_singleton_ne in Hv.
Defined.

(** * Further properties of a run *)

Section DownloadFacts.

Context {W : Type}.
Implicit Types (outW errW : writer W) (r : running W).

Lemma copyOutput_no_sink outW errW evs r :
  sinkOf outW = None → sinkOf errW = None → r_copyErr r = None →
  r_copyErr (copyOutput outW errW evs r) = None.
Proof.
  intros Hout Herr. revert r.
  induction evs as [|[[|] p] evs IH]; intros r Hnone; simpl; [done| |].
  - destruct (r_stdoutDone r); [by apply IH|].
    apply IH. simpl. by rewrite Hnone, Write_no_sink.
  - destruct (r_stderrDone r); [by apply IH|].
    apply IH. simpl. by rewrite Hnone, Write_no_sink.
Qed.

Lemma copyOutput_copyErr_kept outW errW evs r e :
  r_copyErr r = Some e → r_copyErr (copyOutput outW errW evs r) = Some e.
Proof.
  revert r. induction evs as [|[[|] p] evs IH]; intros r He; simpl; [done| |].
  - destruct (r_stdoutDone r); [by apply IH|].
    apply IH. simpl. by rewrite He.
  - destruct (r_stderrDone r); [by apply IH|].
    apply IH. simpl. by rewrite He.
Qed.

Lemma copyOutput_quiet outW errW evs r :
  (∀ st w p, w_calls (Write outW st w p) = []) →
  (∀ st w p, w_calls (Write errW st w p) = []) →
  r_calls (copyOutput outW errW evs r) = r_calls r.
Proof.
  intros Hout Herr. revert r.
  induction evs as [|[[|] p] evs IH]; intros r; simpl; [done| |].
  - destruct (r_stdoutDone r); [by apply IH|].
    rewrite IH. simpl. by rewrite Hout, app_nil_r.
  - destruct (r_stderrDone r); [by apply IH|].
    rewrite IH. simpl. by rewrite Herr, app_nil_r.
Qed.

Lemma copyOutput_world_buffers evs r :
  r_world (copyOutput (@bufferWriter W) bufferWriter evs r) = r_world r.
Proof.
  revert r. induction evs as [|[[|] p] evs IH]; intros r; simpl; [done| |].
  - destruct (r_stdoutDone r); [by apply IH|]. by rewrite IH.
  - destruct (r_stderrDone r); [by apply IH|]. by rewrite IH.
Qed.

Lemma copyOutput_first_refused outW errW p evs r e :
  r_stdoutDone r = false → r_copyErr r = None →
  w_err (Write outW (r_stdout r) (r_world r) p) = Some e →
  w_state (Write outW (r_stdout r) (r_world r) p) = r_stdout r →
  r_copyErr (copyOutput outW errW ((stdout, p) :: evs) r) = Some e
  ∧ r_stdout (copyOutput outW errW ((stdout, p) :: evs) r) = r_stdout r.
Proof.
  intros Hdone Hnone Herr Hst. cbn [copyOutput]. rewrite Hdone.
  match goal with |- context [copyOutput _ _ _ ?r'] =>
    rewrite (copyOutput_copyErr_kept outW errW evs r' e)
      by (simpl; by rewrite Hnone, Herr);
    destruct (copyOutput_stdout_done outW errW evs r') as [-> _];
      [simpl; by rewrite Herr|]
  end.
  split; [done|]. simpl. exact Hst.
Qed.

End DownloadFacts.

(** X12. With a URL and a binary path, no sink on either stream, and a
    child that starts and exits without error, [Download] returns no error
    and a result that holds every byte of each stream in order. The context
    is not consulted: only a failed run looks at [ctx.Err()]. *)
Theorem clean_run_returns_all_output {W : Type} (d : Downloader)
    (env : environment) (url : string) (opts : Options W) (w : W) :
  url ≠ "" → binPath d ≠ "" →
  Stdout opts = None → Stderr opts = None →
  exitErr (childOf d env url opts) = None →
  d_err (Download d env url opts w) = None
  ∧ d_result (Download d env url opts w) =
    Some {| Result_Stdout :=
              concat (chunksOf stdout (output (childOf d env url opts)));
            Result_Stderr :=
              concat (chunksOf stderr (output (childOf d env url opts))) |}.
Proof.
  intros Hurl Hbin Hout Herr Hexit.
  rewrite (Download_runs d env url opts w Hurl Hbin). simpl.
  rewrite Hexit. unfold captured, Run. simpl.
  rewrite copyOutput_no_sink;
    [|by rewrite progressWriter_sink|by rewrite teeWriter_sink|done].
  split; [done|].
  rewrite copyOutput_stdout_all; [|by rewrite progressWriter_sink|done].
  rewrite copyOutput_stderr_all; [|by rewrite teeWriter_sink|done].
  done.
Qed.

Lemma clean_run_returns_all_output_witness :
  d_err (Download {| binPath := "/usr/bin/yt-dlp" |} finishingChild
           "https://example.com/v" noOptions [])
  = None.
Proof.
  refine (proj1 (clean_run_returns_all_output
                   {| binPath := "/usr/bin/yt-dlp" |} finishingChild
                   "https://example.com/v" noOptions [] _ _ _ _ _));
    first [discriminate | reflexivity].
Defined.

(** X13. A sink failure alone fails the download: when the child's first
    chunk is on stdout and the stdout sink refuses it, [Download] reports
    "yt-dlp failed" around the write error although the child exits without
    error and the context is live, and the result holds no stdout byte. *)
Theorem refused_chunk_fails_the_download {W : Type} (d : Downloader)
    (env : environment) (url : string) (opts : Options W) (w w' : W)
    (extra : Sink W) (p : bytes) (evs : list (stream * bytes)) (n : Z)
    (e : error) :
  url ≠ "" → binPath d ≠ "" →
  Stdout opts = Some extra →
  output (childOf d env url opts) = (stdout, p) :: evs →
  exitErr (childOf d env url opts) = None →
  ctxErr env = None →
  extra w p = (w', (n, Some e)) →
  d_err (Download d env url opts w) =
    Some (wrapError "yt-dlp failed: "
            (match Progress opts with
             | Some _ => wrapError "write passthrough: " e ""
             | None => e
             end)
            (String LF
               (str (strings.trimSpace
                       (buf (r_stderr
                               (captured opts (childOf d env url opts) w)))))))
  ∧ ∃ res, d_result (Download d env url opts w) = Some res
           ∧ Result_Stdout res = [].
Proof.
  intros Hurl Hbin Hout Hevs Hexit Hctx Hsink.
  rewrite (Download_runs d env url opts w Hurl Hbin). simpl.
  rewrite Hexit, Hctx.
  set (e' := match Progress opts with
             | Some _ => wrapError "write passthrough: " e ""
             | None => e
             end).
  assert (w_err (Write (progressWriter (Progress opts) (Some extra)).1
                   newStream w p) = Some e'
          ∧ w_state (Write (progressWriter (Progress opts) (Some extra)).1
                       newStream w p) = newStream) as [Herr Hst].
  { subst e'. destruct (Progress opts) as [callback|]; simpl;
      unfold progressWrite, multiWrite; by rewrite Hsink. }
  destruct (copyOutput_first_refused
              (progressWriter (Progress opts) (Some extra)).1
              (teeWriter (Stderr opts)).1 p evs
              {| r_stdout := newStream; r_stderr := newStream;
                 r_stdoutDone := false; r_stderrDone := false;
                 r_copyErr := None; r_world := w; r_calls := [] |} e'
              eq_refl eq_refl Herr Hst) as [Hcopy Hbuf].
  assert (captured opts (childOf d env url opts) w =
          copyOutput (progressWriter (Progress opts) (Some extra)).1
            (teeWriter (Stderr opts)).1 ((stdout, p) :: evs)
            {| r_stdout := newStream; r_stderr := newStream;
               r_stdoutDone := false; r_stderrDone := false;
               r_copyErr := None; r_world := w; r_calls := [] |}) as Hcap.
  { unfold captured, Run. by rewrite Hevs, Hout. }
  rewrite Hcap, Hcopy. split; [done|].
  eexists. split; [done|]. cbn [Result_Stdout]. by rewrite Hbuf.
Qed.

Lemma refused_chunk_fails_the_download_witness :
  ∃ res,
    d_result (Download {| binPath := "/usr/bin/yt-dlp" |}
                {| stat := stat finishingChild;
                   command := command finishingChild; ctxErr := None |}
                "https://example.com/v"
                {| OutputTemplate := ""; Format := ""; Proxy := "";
                   CookiesFile := ""; Headers := ∅; ExtraArgs := [];
                   WorkDir := ""; Stdout := Some closedSink; Stderr := None;
                   Progress := None |} [])
    = Some res
    ∧ Result_Stdout res = [].
Proof.
  refine (proj2 (refused_chunk_fails_the_download
                   {| binPath := "/usr/bin/yt-dlp" |}
                   {| stat := stat finishingChild;
                      command := command finishingChild; ctxErr := None |}
                   "https://example.com/v"
                   {| OutputTemplate := ""; Format := ""; Proxy := "";
                      CookiesFile := ""; Headers := ∅; ExtraArgs := [];
                      WorkDir := ""; Stdout := Some closedSink;
                      Stderr := None; Progress := None |}
                   [] [] closedSink _ _ 0 (errorString "closed")
                   _ _ _ _ _ _ _));
    first [discriminate | reflexivity].
Defined.

(** X14. Without a progress callback [Download] invokes none, whatever
    the child prints; and with no sink either, it leaves the caller's world
    as it found it: the output only goes to the two buffers. *)
Theorem no_callback_no_effect {W : Type} (d : Downloader) (env : environment)
    (url : string) (opts : Options W) (w : W) :
  Progress opts = None →
  d_calls (Download d env url opts w) = []
  ∧ (Stdout opts = None → Stderr opts = None →
     d_world (Download d env url opts w) = w).
Proof.
  intros Hcb.
  destruct (decide (url = "")) as [->|Hurl]; [done|].
  destruct (decide (binPath d = "")) as [Hbin|Hbin].
  { unfold Download. apply String.eqb_neq in Hurl.
    apply String.eqb_eq in Hbin. by rewrite Hurl, Hbin. }
  rewrite (Download_runs d env url opts w Hurl Hbin). simpl.
  unfold captured, Run. simpl. rewrite Hcb. simpl. split.
  - rewrite copyOutput_quiet; [done| |]; apply teeWriter_calls.
  - intros -> ->. simpl. by rewrite copyOutput_world_buffers.
Qed.

Lemma no_callback_no_effect_witness :
  d_calls (Download {| binPath := "/usr/bin/yt-dlp" |} finishingChild
             "https://example.com/v" noOptions [])
  = [].
Proof.
  exact (proj1 (no_callback_no_effect {| binPath := "/usr/bin/yt-dlp" |}
                  finishingChild "https://example.com/v" noOptions []
                  eq_refl)).
Defined.

(** X15. With a callback and no stdout sink, the updates delivered by a
    run are those of the child's stdout bytes alone: two children with the
    same stdout stream cause the same invocations, however their output is
    cut into chunks and whatever they print on stderr, which is never
    decoded. *)
Theorem callbacks_depend_on_stdout_bytes_only {W : Type} (d : Downloader)
    (env env' : environment) (url : string) (opts : Options W) (w w' : W)
    (callback : Callback W) :
  url ≠ "" → binPath d ≠ "" →
  Progress opts = Some callback → Stdout opts = None →
  concat (chunksOf stdout (output (childOf d env' url opts))) =
  concat (chunksOf stdout (output (childOf d env url opts))) →
  d_calls (Download d env' url opts w') = d_calls (Download d env url opts w).
Proof.
  intros Hurl Hbin Hcb Hout Heq.
  rewrite !(Download_calls _ _ _ _ _ callback) by done. by rewrite Heq.
Qed.

Lemma callbacks_depend_on_stdout_bytes_only_witness :
  d_calls (Download {| binPath := "/usr/bin/yt-dlp" |}
             {| stat := fun _ => None;
                command := fun _ _ _ =>
                  {| output := [(stdout, bytesOf " 10.0%|00:09|1.0MiB/s" ++ [LF]
                                         ++ bytesOf "[download] Destination: a.mp4"
                                         ++ [LF] ++ bytesOf "100%|00:00|2.0MiB/s"
                                         ++ [LF])];
                     exitErr := None |};
                ctxErr := None |}
             "https://example.com/v" (exampleOptions quietCallback) [])
  = d_calls (Download {| binPath := "/usr/bin/yt-dlp" |} finishingChild
               "https://example.com/v" (exampleOptions quietCallback) []).
Proof.
  apply (callbacks_depend_on_stdout_bytes_only _ _ _ _ _ _ _ quietCallback);
    first [discriminate | reflexivity].
Defined.

(** X16. A downloader that [New] returned without error holds the path it
    was given, which is not empty; so with a URL that is not empty
    [Download] on it gets past both configuration checks and returns a
    result, with or without an error. *)
Theorem New_downloader_always_runs {W : Type} (env env' : environment)
    (binaryPath url : string) (d : Downloader) (opts : Options W) (w : W) :
  New env binaryPath = (Some d, None) → url ≠ "" →
  binPath d = binaryPath
  ∧ binaryPath ≠ ""
  ∧ stat env binaryPath = None
  ∧ d_result (Download d env' url opts w) ≠ None
  ∧ d_err (Download d env' url opts w) ≠ Some errURLRequired
  ∧ d_err (Download d env' url opts w) ≠ Some errBinaryNotConfigured.
Proof.
  unfold New. destruct (String.eqb_spec binaryPath "") as [|Hne]; [done|].
  destruct (stat env binaryPath) as [e|] eqn:Hstat; [done|].
  intros [= <-] Hurl. simpl. split; [done|]. split; [done|]. split; [done|].
  rewrite (Download_runs {| binPath := binaryPath |} env' url opts w Hurl Hne).
  simpl. split; [done|].
  repeat case_match; split; done.
Qed.

Lemma New_downloader_always_runs_witness :
  d_result (Download {| binPath := "/usr/bin/yt-dlp" |} failingChild
              "https://example.com/v" noOptions [])
  ≠ None.
Proof.
  destruct (New_downloader_always_runs finishingChild failingChild
              "/usr/bin/yt-dlp" "https://example.com/v"
              {| binPath := "/usr/bin/yt-dlp" |} noOptions [])
    as (_ & _ & _ & H & _); [reflexivity|discriminate|exact H].
Defined.

(** X17. The program of [examples/simple] never dereferences a [nil]
    pointer: [res.Stderr] is read only after a failed download, and a
    download by a downloader from [New] with the program's URL always
    returns a result. The program returns [nil] exactly when the variable is
    set, the binary is found and the child exits without error; with the
    variable unset it returns its own error and touches nothing. *)
Theorem example_run_is_nil_safe {W : Type} (env : environment)
    (ytDLPPath : string) (printProgress : Callback W)
    (finished : bytes → W → W) (w : W) :
  (run env ytDLPPath printProgress finished w).1 ≠ nilDereference
  ∧ ((run env ytDLPPath printProgress finished w).1 = returned None ↔
     ytDLPPath ≠ "" ∧ stat env ytDLPPath = None
     ∧ exitErr (command env ytDLPPath
                  (buildArgs exampleURL (exampleOptions printProgress)) "")
       = None)
  ∧ (ytDLPPath = "" →
     run env ytDLPPath printProgress finished w
     = (returned (Some errMissingYTDLPPath), w)).
Proof.
  unfold run.
  destruct (String.eqb_spec ytDLPPath "") as [Hempty|Hne].
  { repeat split; try done. by intros [? _]. }
  unfold New. simpl. rewrite (proj2 (String.eqb_neq _ _) Hne).
  destruct (stat env ytDLPPath) as [e|] eqn:Hstat.
  { repeat split; try done. by intros (_ & ? & _). }
  set (env0 := {| stat := stat env; command := command env; ctxErr := None |}).
  rewrite (Download_runs {| binPath := ytDLPPath |} env0 exampleURL
             (exampleOptions printProgress) w); [|done|done].
  cbn [d_err d_result d_world]. unfold childOf, captured, Run.
  cbn [fst snd ctxErr env0 command binPath WorkDir exampleOptions Stdout
       Stderr Progress progressWriter teeWriter].
  rewrite copyOutput_no_sink by done.
  destruct (exitErr _) as [e|] eqn:Hexit; simpl.
  - repeat split; try done. by intros (_ & _ & ?).
  - repeat split; done.
Qed.
